(** * rank_required_courses.py: the spreadsheet cell reader and the PNG encoder

    A shallow embedding of the two format engines of
    [scripts/rank_required_courses.py]: the OOXML reader ([col_index],
    [read_shared_strings], [read_sheet_rows]) and the raster encoder
    ([make_png] with its local function [chunk]).

    Conventions of the embedding.
    - Python exceptions are the constructors of [exn]; a computation that may
      raise returns a [result].
    - A Python [str] is a Rocq [string]; its characters are the code points
      U+0000..U+00FF, and [isalpha], [upper], [py_int] follow CPython on that
      range.
    - A Python [bytes] is a [list byte].
    - A [dict] is a [gmap]; a Python [list] is a [list].
    - The XML text parser and the zip reader are outside the program: an
      archive is the finite map from member names to the outcome of parsing
      the member, and a parsed member is an [element] tree as
      [xml.etree.ElementTree] builds it.
    - [zlib.compress] is a parameter of the encoder.
    - The file system is a parameter too: [path.parent.mkdir] and
      [path.write_bytes] are operations of the runtime, each of which gives
      the file system after it and may raise. *)

From Stdlib Require Import ZArith Lia List String Ascii Bool.
From Stdlib Require Import Strings.Byte.
From stdpp Require Import gmap strings list.
Import ListNotations.

Local Open Scope Z_scope.
Local Set Warnings "-register-all,-abstract-large-number".

(** ** Exceptions and results *)

Inductive exn : Type :=
  | KeyError
  | IndexError
  | ValueError
  | TypeError
  | AttributeError
  | ParseError
  | StructError
  | OverflowError
  | FileExistsError
  | NotADirectoryError
  | IsADirectoryError
  | OSError.

Inductive result (A : Type) : Type :=
  | Ok (a : A)
  | Raise (e : exn).

Arguments Ok {A} a.
Arguments Raise {A} e.

Definition result_bind {A B : Type} (f : A → result B) (m : result A) : result B :=
  match m with
  | Ok a => f a
  | Raise e => Raise e
  end.

#[export] Instance result_mbind : MBind result := @result_bind.

(** A [for] loop whose body may raise: the accumulator is threaded from left
    to right and the first exception ends the loop. *)
Fixpoint for_each {A S : Type} (body : S → A → result S) (s : S) (xs : list A)
  : result S :=
  match xs with
  | [] => Ok s
  | x :: xs' => s' ← body s x; for_each body s' xs'
  end.

(** ** Builtins on characters and strings *)

Definition ord (c : ascii) : Z := Z.of_N (N_of_ascii c).

Definition in_range (lo hi n : Z) : bool := (lo <=? n) && (n <=? hi).

(** [str.isalpha] on one character: the code points of U+0000..U+00FF whose
    general category is a letter. *)
Definition isalpha (c : ascii) : bool :=
  let n := ord c in
  in_range 65 90 n || in_range 97 122 n
  || (n =? 170) || (n =? 181) || (n =? 186)
  || in_range 192 214 n || in_range 216 246 n || in_range 248 255 n.

(** [str.upper] on one character, as the code points of the resulting string
    (the sharp s becomes two characters, two letters leave the range). *)
Definition upper (c : ascii) : list Z :=
  let n := ord c in
  if in_range 97 122 n then [n - 32]
  else if n =? 181 then [924]
  else if n =? 223 then [83; 83]
  else if n =? 255 then [376]
  else if in_range 224 246 n || in_range 248 254 n then [n - 32]
  else [n].

(** [ord] of a string: defined on strings of length one only. *)
Definition ord_str (s : list Z) : result Z :=
  match s with
  | [n] => Ok n
  | _ => Raise TypeError
  end.

(** The characters [int] strips from both ends of its argument. *)
Definition int_space (c : ascii) : bool :=
  let n := ord c in
  in_range 9 13 n || (n =? 32) || (n =? 133) || (n =? 160).

Definition is_digit (c : ascii) : bool := in_range 48 57 (ord c).

Fixpoint lstrip (cs : list ascii) : list ascii :=
  match cs with
  | c :: cs' => if int_space c then lstrip cs' else cs
  | [] => []
  end.

Definition strip (cs : list ascii) : list ascii := rev (lstrip (rev (lstrip cs))).

(** Decimal digits with single underscores between them; the result is the
    value and the number of digits. *)
Fixpoint int_digits (after_digit : bool) (acc count : Z) (cs : list ascii)
  : option (Z * Z) :=
  match cs with
  | [] => if after_digit then Some (acc, count) else None
  | c :: cs' =>
      if is_digit c then int_digits true (acc * 10 + (ord c - 48)) (count + 1) cs'
      else if (ord c =? 95) && after_digit then int_digits false acc count cs'
      else None
  end.

Definition int_max_str_digits : Z := 4300.

(** [int(text)] for [text] a string or [None]. *)
Definition py_int (text : option string) : result Z :=
  match text with
  | None => Raise TypeError
  | Some s =>
      let cs := strip (list_ascii_of_string s) in
      let '(negative, body) :=
        match cs with
        | c :: rest =>
            if ord c =? 45 then (true, rest)
            else if ord c =? 43 then (false, rest)
            else (false, cs)
        | [] => (false, cs)
        end in
      match int_digits false 0 0 body with
      | Some (n, count) =>
          if int_max_str_digits <? count then Raise ValueError
          else Ok (if negative then - n else n)
      | None => Raise ValueError
      end
  end.

(** [l[i]] on a list: a negative index counts from the end. *)
Definition list_getitem {A : Type} (l : list A) (i : Z) : result A :=
  let n := Z.of_nat (length l) in
  let j := if i <? 0 then i + n else i in
  if (0 <=? j) && (j <? n) then
    match l !! Z.to_nat j with
    | Some x => Ok x
    | None => Raise IndexError
    end
  else Raise IndexError.

(** [d[k]] on a dict. *)
Definition dict_getitem {V : Type} (d : gmap string V) (k : string) : result V :=
  match d !! k with
  | Some v => Ok v
  | None => Raise KeyError
  end.

(** ** Element trees *)

Inductive element : Type :=
  | Element (tag : string) (attrib : gmap string string) (text : option string)
            (children : list element).

Definition tag (e : element) : string := let 'Element t _ _ _ := e in t.
Definition attrib (e : element) : gmap string string := let 'Element _ a _ _ := e in a.
Definition text (e : element) : option string := let 'Element _ _ x _ := e in x.
Definition children (e : element) : list element := let 'Element _ _ _ cs := e in cs.

Definition NS_x : string := "http://schemas.openxmlformats.org/spreadsheetml/2006/main".

(** The tag a prefixed name [x:local] stands for. *)
Definition qname (local : string) : string :=
  String.append "{" (String.append NS_x (String.append "}" local)).

Definition has_tag (local : string) (e : element) : bool :=
  String.eqb (tag e) (qname local).

(** [e.findall("x:local", NS)]: the matching children, in document order. *)
Definition findall (local : string) (e : element) : list element :=
  List.filter (has_tag local) (children e).

(** [e.find("x:local", NS)]: the first matching child, or [None]. *)
Definition find (local : string) (e : element) : option element :=
  head (findall local e).

(** An element followed by its descendants, in document order. *)
Fixpoint iter (e : element) : list element :=
  match e with
  | Element _ _ _ cs => e :: flat_map iter cs
  end.

(** [e.findall(".//x:local", NS)]: the matching descendants, in document order. *)
Definition findall_descendants (local : string) (e : element) : list element :=
  List.filter (has_tag local) (flat_map iter (children e)).

(** The outcome of [ET.fromstring] on the bytes of an archive member. *)
Inductive member : Type :=
  | WellFormed (root : element)
  | Malformed.

Definition ET_fromstring (m : member) : result element :=
  match m with
  | WellFormed root => Ok root
  | Malformed => Raise ParseError
  end.

(** ** The spreadsheet reader *)

Definition col_index (cell_ref : string) : result Z :=
  let letters := List.filter isalpha (list_ascii_of_string cell_ref) in
  value ← for_each (λ value ch, o ← ord_str (upper ch); Ok (value * 26 + (o - 64)))
                   0 letters;
  Ok (value - 1).

Definition read_shared_strings (zf : gmap string member) : result (list string) :=
  match zf !! "xl/sharedStrings.xml"%string with
  | None => Ok []
  | Some m =>
      root ← ET_fromstring m;
      Ok (fold_left
            (λ values si,
               let parts := map (λ node, default ""%string (text node))
                                (findall_descendants "t" si) in
               values ++ [String.concat "" parts])
            (findall "si" root) [])
  end.

(** The body of the loop over the cells of one row. *)
Definition read_cell (shared_strings : list string) (row_values : gmap Z string)
    (cell : element) : result (gmap Z string) :=
  r ← dict_getitem (attrib cell) "r";
  idx ← col_index r;
  match find "v" cell with
  | None => Ok (<[idx := ""%string]> row_values)
  | Some raw =>
      if decide (attrib cell !! "t"%string = Some "s"%string) then
        i ← py_int (text raw);
        s ← list_getitem shared_strings i;
        Ok (<[idx := s]> row_values)
      else Ok (<[idx := default ""%string (text raw)]> row_values)
  end.

(** The body of the loop over the rows. *)
Definition read_row (shared_strings : list string) (rows : list (gmap Z string))
    (row : element) : result (list (gmap Z string)) :=
  row_values ← for_each (read_cell shared_strings) ∅ (findall "c" row);
  Ok (rows ++ [row_values]).

Definition read_sheet_rows (zf : gmap string member) : result (list (gmap Z string)) :=
  shared_strings ← read_shared_strings zf;
  m ← dict_getitem zf "xl/worksheets/sheet1.xml";
  sheet_xml ← ET_fromstring m;
  match find "sheetData" sheet_xml with
  | None => Raise AttributeError
  | Some sheet_data =>
      for_each (read_row shared_strings) [] (findall "row" sheet_data)
  end.

(** ** Builtins on bytes *)

Definition byte_val (b : byte) : Z := Z.of_N (Byte.to_N b).

(** The byte holding the low eight bits of [z]. *)
Definition byte_of_Z (z : Z) : byte :=
  default x00 (Byte.of_N (Z.to_N (Z.land z 255))).

(** The integer formats of [struct.pack] the encoder uses, in network byte
    order: [I] is an unsigned 32-bit field, [B] an unsigned 8-bit field. Both
    refuse a value outside their range. *)
Inductive fmt_code : Type :=
  | fmt_I
  | fmt_B.

Definition pack_field (c : fmt_code) (v : Z) : result (list byte) :=
  match c with
  | fmt_I =>
      if in_range 0 4294967295 v then
        Ok [byte_of_Z (v ≫ 24); byte_of_Z (v ≫ 16); byte_of_Z (v ≫ 8); byte_of_Z v]
      else Raise StructError
  | fmt_B =>
      if in_range 0 255 v then Ok [byte_of_Z v] else Raise StructError
  end.

Fixpoint struct_pack (fmt : list fmt_code) (values : list Z) : result (list byte) :=
  match fmt, values with
  | [], [] => Ok []
  | c :: fmt', v :: values' =>
      field ← pack_field c v;
      rest ← struct_pack fmt' values';
      Ok (field ++ rest)
  | _, _ => Raise StructError
  end.

(** [zlib.crc32]: the CRC-32 of the zip and deflate family, bit by bit, with
    the reflected polynomial, the all-ones initial register and the final
    complement. *)
Definition crc_poly : Z := 0xEDB88320.

Definition crc_shift (c : Z) : Z :=
  if Z.testbit c 0 then Z.lxor (c ≫ 1) crc_poly else c ≫ 1.

Definition crc_byte (c : Z) (b : byte) : Z :=
  Nat.iter 8 crc_shift (Z.lxor c (byte_val b)).

Definition crc32 (data : list byte) : Z :=
  Z.lxor (fold_left crc_byte data 0xFFFFFFFF) 0xFFFFFFFF.

(** ** The raster encoder *)

Definition tag_IHDR : list byte := [x49; x48; x44; x52].
Definition tag_IDAT : list byte := [x49; x44; x41; x54].
Definition tag_IEND : list byte := [x49; x45; x4e; x44].

(** The literal [b"\x89PNG\r\n\x1a\n"]. *)
Definition png_signature : list byte := [x89; x50; x4e; x47; x0d; x0a; x1a; x0a].

(** The format string ["!IIBBBBB"]. *)
Definition header_format : list fmt_code :=
  [fmt_I; fmt_I; fmt_B; fmt_B; fmt_B; fmt_B; fmt_B].

Definition chunk (tag data : list byte) : result (list byte) :=
  len ← struct_pack [fmt_I] [Z.of_nat (length data)];
  crc ← struct_pack [fmt_I] [Z.land (crc32 (tag ++ data)) 0xFFFFFFFF];
  Ok (len ++ tag ++ data ++ crc).

(** The two operations of the file system the encoder calls, on a file
    system of type [FS]. Each returns the file system after the call, which
    on an exception is the one the failed call leaves behind.
    - [mkdir_parent path]: [path.parent.mkdir(parents=True, exist_ok=True)];
    - [write_bytes path data]: [path.write_bytes(data)]. *)
Record file_ops (FS : Type) : Type := FileOps {
  mkdir_parent : string → FS → FS * result unit;
  write_bytes : string → list byte → FS → FS * result unit
}.

Arguments FileOps {FS} _ _.
Arguments mkdir_parent {FS} _ _ _.
Arguments write_bytes {FS} _ _ _ _.

(** The last two statements of [make_png]: the directory, then the file. *)
Definition write_file {FS : Type} (io : file_ops FS) (path : string)
    (png : list byte) (fs : FS) : FS * result unit :=
  match mkdir_parent io path fs with
  | (fs', Ok _) => write_bytes io path png fs'
  | (fs', Raise e) => (fs', Raise e)
  end.

Section Encoder.

(** [zlib.compress(data, level)]. *)
Variable compress : list byte → Z → list byte.

Variable FS : Type.
Variable io : file_ops FS.

(** The value of the local [png] of [make_png]. *)
Definition make_png_bytes (width height : Z) (rgb_rows : list (list byte))
  : result (list byte) :=
  let raw := concat (map (λ row, [x00] ++ row) rgb_rows) in
  ihdr ← struct_pack header_format [width; height; 8; 2; 0; 0; 0];
  c_ihdr ← chunk tag_IHDR ihdr;
  c_idat ← chunk tag_IDAT (compress raw 9);
  c_iend ← chunk tag_IEND [];
  Ok (png_signature ++ c_ihdr ++ c_idat ++ c_iend).

(** [make_png]: the bytes are assembled first, then the directory is made
    and the file written. The file system returned with an exception is the
    one at the time it is raised. *)
Definition make_png (width height : Z) (rgb_rows : list (list byte))
    (path : string) (fs : FS) : FS * result unit :=
  match make_png_bytes width height rgb_rows with
  | Ok png => write_file io path png fs
  | Raise e => (fs, Raise e)
  end.

End Encoder.

Arguments make_png compress {FS} io width height rgb_rows path fs.

(** ** A file system to run the encoder with

    Paths are relative, with ["/"] between the names; the file system maps a
    path to a directory or to a file with its bytes. Making the directories
    above a path fails where a file stands in the way, writing fails where
    a directory stands at the path; nothing else fails. *)

Inductive fs_entry : Type :=
  | Dir
  | File (content : list byte).

(** The directories above a path, outermost first. *)
Fixpoint path_parents (seen cs : list ascii) : list string :=
  match cs with
  | [] => []
  | c :: cs' =>
      let rest := path_parents (c :: seen) cs' in
      if ord c =? 47 then
        match seen with
        | [] => rest
        | _ => string_of_list_ascii (rev seen) :: rest
        end
      else rest
  end.

Fixpoint make_dirs (dirs : list string) (fs : gmap string fs_entry)
  : gmap string fs_entry * result unit :=
  match dirs with
  | [] => (fs, Ok tt)
  | d :: dirs' =>
      match fs !! d with
      | Some (File _) =>
          (fs, Raise (match dirs' with
                      | [] => FileExistsError
                      | _ => NotADirectoryError
                      end))
      | _ => make_dirs dirs' (<[d := Dir]> fs)
      end
  end.

Definition plain_fs : file_ops (gmap string fs_entry) :=
  FileOps
    (λ path fs, make_dirs (path_parents [] (list_ascii_of_string path)) fs)
    (λ path data fs,
       match fs !! path with
       | Some Dir => (fs, Raise IsADirectoryError)
       | _ => (<[path := File data]> fs, Ok tt)
       end).

(** ** A deflate-family compressor to run the encoder with

    A zlib stream of stored blocks: the two header bytes, blocks of at most
    65535 bytes each preceded by the final-block flag, the length and its
    complement in little-endian order, and the Adler-32 of the input. The
    compression level does not change its output. *)

Definition adler32 (data : list byte) : Z :=
  let '(a, b) :=
    fold_left (λ '(a, b) x, let a' := (a + byte_val x) mod 65521 in
                             (a', (b + a') mod 65521))
              data (1, 0) in
  Z.lor (b ≪ 16) a.

Fixpoint stored_blocks (fuel : nat) (data : list byte) : list byte :=
  match fuel with
  | O => []
  | S fuel' =>
      let block := take 65535 data in
      let rest := drop 65535 data in
      let n := Z.of_nat (length block) in
      let final := match rest with [] => 1 | _ => 0 end in
      [byte_of_Z final; byte_of_Z n; byte_of_Z (n ≫ 8);
       byte_of_Z (Z.lxor n 65535); byte_of_Z (Z.lxor n 65535 ≫ 8)]
      ++ block
      ++ match rest with [] => [] | _ => stored_blocks fuel' rest end
  end.

Definition deflate_stored (data : list byte) (level : Z) : list byte :=
  let a := adler32 data in
  [x78; x01] ++ stored_blocks (S (length data)) data
  ++ [byte_of_Z (a ≫ 24); byte_of_Z (a ≫ 16); byte_of_Z (a ≫ 8); byte_of_Z a].

(** ** Notions the statements are written with *)

Definition chars (s : string) : list ascii := list_ascii_of_string s.

(** The position of a character in an alphabet, counted from one. *)
Fixpoint position (c : ascii) (alphabet : list ascii) : option Z :=
  match alphabet with
  | [] => None
  | x :: alphabet' =>
      if Ascii.eqb c x then Some 1 else Z.succ <$> position c alphabet'
  end.

(** The digit a letter stands for: A=1 .. Z=26, in either case. *)
Definition digit_value (c : ascii) : option Z :=
  match position c (chars "ABCDEFGHIJKLMNOPQRSTUVWXYZ") with
  | Some d => Some d
  | None => position c (chars "abcdefghijklmnopqrstuvwxyz")
  end.

(** The digits of the letters of a reference, the other characters dropped. *)
Definition letter_digits (s : string) : list Z := omap digit_value (chars s).

(** The value of a numeral in base 26, most significant digit first. *)
Fixpoint numeral26 (ds : list Z) : Z :=
  match ds with
  | [] => 0
  | d :: ds' => d * 26 ^ Z.of_nat (length ds') + numeral26 ds'
  end.

(** Every alphabetic character of the string is one of the 26 Latin letters. *)
Definition latin_letters (s : string) : bool :=
  forallb (λ c, implb (isalpha c) (bool_decide (is_Some (digit_value c)))) (chars s).

Definition has_letter (s : string) : bool := existsb isalpha (chars s).

(** A run of uppercase letters A..Z. *)
Definition uppercase (cs : list ascii) : bool :=
  forallb (λ c, in_range 65 90 (ord c)) cs.

Definition letter_run (s : string) : bool := uppercase (chars s).

(** One step of the accumulation, and the digit of an uppercase letter. *)
Definition step26 (value d : Z) : Z := value * 26 + d.
Definition letter_ord (c : ascii) : Z := ord c - 64.

(** Alphabetical order on runs of equal length. *)
Fixpoint alpha_lt (s1 s2 : list ascii) : bool :=
  match s1, s2 with
  | c1 :: r1, c2 :: r2 =>
      (ord c1 <? ord c2) || ((ord c1 =? ord c2) && alpha_lt r1 r2)
  | _, _ => false
  end.

(** Shorter runs first, runs of one length in alphabetical order:
    A, B, .., Z, AA, AB, .. *)
Definition shortlex_lt (s1 s2 : string) : bool :=
  Nat.ltb (String.length s1) (String.length s2)
  || (Nat.eqb (String.length s1) (String.length s2) && alpha_lt (chars s1) (chars s2)).

(** The text of a text run, [node.text or ""]. *)
Definition run_text (node : element) : string := default ""%string (text node).

(** Strings put one after the other with nothing in between. *)
Definition concat_strings (parts : list string) : string :=
  fold_right String.append ""%string parts.

(** The column a cell is filed under. *)
Definition cell_column (cell : element) : result Z :=
  r ← dict_getitem (attrib cell) "r"; col_index r.

(** The unsigned integer a byte string holds in big-endian order. *)
Definition big_endian (bs : list byte) : Z :=
  fold_left (λ acc b, acc * 256 + byte_val b) bs 0.

(** [bs] is the 4-byte big-endian encoding of [n]. *)
Definition be32 (n : Z) (bs : list byte) : Prop :=
  length bs = 4%nat ∧ big_endian bs = n.

(** [out] frames the chunk with this tag and data: length of the data, tag,
    data, CRC-32 of tag and data. *)
Definition framed (tag data out : list byte) : Prop :=
  ∃ len crc,
    out = len ++ tag ++ data ++ crc
    ∧ be32 (Z.of_nat (length data)) len
    ∧ be32 (crc32 (tag ++ data)) crc.

(** The stream that is compressed: each scanline after a filter byte 0. *)
Definition scanline_stream (rgb_rows : list (list byte)) : list byte :=
  flat_map (λ row, x00 :: row) rgb_rows.

(** The file the claimed layout describes. *)
Definition png_layout (width height : Z) (compressed png : list byte) : Prop :=
  ∃ w4 h4 c_ihdr c_idat c_iend,
    png = png_signature ++ c_ihdr ++ c_idat ++ c_iend
    ∧ be32 width w4 ∧ be32 height h4
    ∧ framed tag_IHDR (w4 ++ h4 ++ [x08; x02; x00; x00; x00]) c_ihdr
    ∧ framed tag_IDAT compressed c_idat
    ∧ framed tag_IEND [] c_iend.

Definition u32 (z : Z) : Prop := 0 ≤ z < 2 ^ 32.

(** The width, the height and the length of the compressed stream fit the
    unsigned 32-bit fields they are packed in. *)
Definition fields_fit (compress : list byte → Z → list byte) (width height : Z)
    (rgb_rows : list (list byte)) : Prop :=
  u32 width ∧ u32 height
  ∧ u32 (Z.of_nat (length (compress (scanline_stream rgb_rows) 9))).

(** The row elements of the worksheet member, in document order. *)
Definition sheet_rows (zf : gmap string member) : list element :=
  match zf !! "xl/worksheets/sheet1.xml"%string with
  | Some (WellFormed sheet_xml) =>
      match find "sheetData" sheet_xml with
      | Some sheet_data => findall "row" sheet_data
      | None => []
      end
  | _ => []
  end.

(** ** A small workbook *)

Definition el (local : string) (attrs : list (string * string)) (txt : option string)
    (cs : list element) : element :=
  Element (qname local) (list_to_map attrs) txt cs.

Definition t_run (txt : string) : element := el "r" [] None [el "t" [] (Some txt) []].

(** Four pool entries: plain text, two runs, no run at all, two runs. *)
Definition example_strings : element :=
  el "sst" [] None
    [ el "si" [] None [el "t" [] (Some "Title"%string) []];
      el "si" [] None [t_run "Q"; t_run "1"];
      el "si" [] None [];
      el "si" [] None [t_run "Course"; t_run " Name"] ].

Definition cell (ref : string) (type : option string) (value : option string) : element :=
  Element (qname "c")
          (match type with
           | Some t => list_to_map [("r"%string, ref); ("t"%string, t)]
           | None => list_to_map [("r"%string, ref)]
           end)
          None
          (match value with
           | Some v => [el "v" [] (Some v) []]
           | None => []
           end).

Definition title_row : element :=
  el "row" [] None [cell "A1" (Some "s"%string) (Some "0"%string)].

Definition workbook (second_row : list element) : gmap string member :=
  list_to_map
    [ ("xl/sharedStrings.xml"%string, WellFormed example_strings);
      ("xl/worksheets/sheet1.xml"%string,
       WellFormed
         (el "worksheet" [] None
            [ el "sheetData" [] None
                [ title_row; el "row" [] None second_row ] ])) ].

Definition example_cells : list element :=
  [ cell "A2" (Some "s"%string) (Some "1"%string);
    cell "B2" None None;
    cell "C2" (Some "s"%string) (Some "3"%string);
    cell "E2" None (Some "4.5"%string) ].

Definition example_row : element := el "row" [] None example_cells.

(** What the reader returns on [workbook example_cells]. *)
Definition example_rows : list (gmap Z string) :=
  [ {[ 0 := "Title"%string ]};
    list_to_map [(0, "Q1"); (1, ""); (2, "Course Name"); (4, "4.5")]%string ].

(** The pool of [example_strings]. *)
Definition example_pool : list string := ["Title"; "Q1"; ""; "Course Name"]%string.

Definition cell_beyond : element := cell "A2" (Some "s"%string) (Some "4"%string).
Definition cell_from_end : element := cell "A2" (Some "s"%string) (Some "-1"%string).
Definition cell_no_letters : element := cell "12" None (Some "x"%string).

(** ** The course columns

    [normalize_course_name] and [extract_core_course_columns], with the
    string methods they call. *)

(** [str.isspace] on one character; [str.strip] and the pattern [\s] use the
    same set. *)
Definition isspace (c : ascii) : bool :=
  let n := ord c in
  in_range 9 13 n || in_range 28 32 n || (n =? 133) || (n =? 160).

Definition chr (n : Z) : ascii := ascii_of_N (Z.to_N n).

(** [str.lower] on one character. *)
Definition lower (c : ascii) : ascii :=
  let n := ord c in
  if in_range 65 90 n || in_range 192 214 n || in_range 216 222 n
  then chr (n + 32) else c.

Fixpoint starts_with (pre cs : list ascii) : bool :=
  match pre, cs with
  | [], _ => true
  | p :: pre', c :: cs' => Ascii.eqb p c && starts_with pre' cs'
  | _ :: _, [] => false
  end.

(** [sub in s]. *)
Fixpoint contains (sub cs : list ascii) : bool :=
  starts_with sub cs
  || match cs with
     | [] => false
     | _ :: cs' => contains sub cs'
     end.

(** [s.split(sep)] for a separator that is not empty: the occurrences of the
    separator are found from left to right without overlap. [skip] counts
    the characters of a found separator still to pass over, [cur] holds the
    current piece backwards. *)
Fixpoint split_go (sep : list ascii) (skip : nat) (cur cs : list ascii)
  : list (list ascii) :=
  match cs with
  | [] => [rev cur]
  | c :: cs' =>
      match skip with
      | S k => split_go sep k cur cs'
      | O =>
          if starts_with sep cs
          then rev cur :: split_go sep (length sep - 1) [] cs'
          else split_go sep 0 (c :: cur) cs'
      end
  end.

Definition str_split (sep cs : list ascii) : list (list ascii) :=
  split_go sep 0 [] cs.

Fixpoint drop_spaces (cs : list ascii) : list ascii :=
  match cs with
  | c :: cs' => if isspace c then drop_spaces cs' else cs
  | [] => []
  end.

(** [s.strip()]. *)
Definition str_strip (cs : list ascii) : list ascii :=
  rev (drop_spaces (rev (drop_spaces cs))).

(** [re.sub(r"\s+", " ", s)]: every maximal run of whitespace becomes one
    space; [in_run] tells that the run the scan is in was already replaced. *)
Fixpoint sub_spaces (in_run : bool) (cs : list ascii) : list ascii :=
  match cs with
  | [] => []
  | c :: cs' =>
      if isspace c
      then (if in_run then sub_spaces true cs' else " "%char :: sub_spaces true cs')
      else c :: sub_spaces false cs'
  end.

Definition normalize_course_name (label : string) : result string :=
  piece ← list_getitem (str_split (chars " - ") (chars label)) (-1);
  Ok (string_of_list_ascii (sub_spaces false (str_strip piece))).

(** The test of the loop of [extract_core_course_columns]. *)
Definition is_core_label (label : string) : bool :=
  let lowered := map lower (chars label) in
  contains (chars "macc core course") lowered && contains (chars "- acc") lowered.

(** The items of the row are visited in the order [map_to_list] gives them;
    the keys being distinct, the dict that results is the same for every
    order. *)
Definition extract_core_course_columns (question_row : gmap Z string)
  : result (gmap Z string) :=
  course_columns ←
    for_each (λ (course_columns : gmap Z string) '(idx, label),
                if is_core_label label
                then name ← normalize_course_name label;
                     Ok (<[idx := name]> course_columns)
                else Ok course_columns)
             ∅ (map_to_list question_row);
  if decide (course_columns = ∅) then Raise ValueError else Ok course_columns.

(** ** The bar chart

    [draw_bar_chart] on the ranked rows. A row counts here by its mean
    rating alone, a value of a type [F] of floats; the floating-point part of
    the function, [int(mean_rating * scale)] with [scale] computed from the
    largest rating of all rows, is the parameter [bar_extent]. *)

(** [range(a, b)]. *)
Definition py_range (a b : Z) : list Z := seqZ a (b - a).

(** The place a slice bound stands for in a list of [n] elements. *)
Definition slice_bound (n : nat) (i : Z) : nat :=
  Z.to_nat (if i <? 0 then Z.max 0 (i + Z.of_nat n) else Z.min i (Z.of_nat n)).

(** [l[p:q] = new]. *)
Definition slice_assign {A : Type} (l : list A) (p q : Z) (new : list A) : list A :=
  let lo := slice_bound (length l) p in
  let hi := Nat.max lo (slice_bound (length l) q) in
  take lo l ++ new ++ drop hi l.

(** [row = canvas[y]] followed by changes of [row] in place: the rows of the
    canvas are lists of their own, so the change shows in that row of the
    canvas only. *)
Definition update_row (canvas : list (list Z)) (y : Z) (change : list Z → list Z)
  : result (list (list Z)) :=
  row ← list_getitem canvas y;
  let j := if y <? 0 then y + Z.of_nat (length canvas) else y in
  Ok (<[Z.to_nat j := change row]> canvas).

(** [bytes(ints)]. *)
Fixpoint bytes_of_ints (ints : list Z) : result (list byte) :=
  match ints with
  | [] => Ok []
  | n :: rest =>
      if in_range 0 255 n
      then bs ← bytes_of_ints rest; Ok (byte_of_Z n :: bs)
      else Raise ValueError
  end.

Definition chart_width : Z := 1200.
Definition chart_top : Z := 40.
Definition chart_bottom : Z := 30.
Definition chart_left : Z := 200.
Definition chart_right : Z := 40.
Definition bar_h : Z := 36.
Definition bar_gap : Z := 16.
Definition background : list Z := [250; 250; 250].
Definition bar_color : list Z := [67; 97; 238].
Definition axis_color : list Z := [80; 80; 80].

Section Chart.

Variable F : Type.

(** [int(mean_rating * scale)] for a row, given all rows. *)
Variable bar_extent : list F → F → result Z.

Variable compress : list byte → Z → list byte.

Variable FS : Type.
Variable io : file_ops FS.

(** The loop that draws the axis line. *)
Definition draw_axis (height chart_h : Z) (canvas : list (list Z))
  : result (list (list Z)) :=
  for_each (λ canvas y,
              let idx := y in
              if (0 <=? idx) && (idx <? height) then
                let offset := (chart_left - 1) * 3 in
                update_row canvas idx (λ row, slice_assign row offset (offset + 3) axis_color)
              else Ok canvas)
           canvas (py_range (chart_top - 10) (chart_top + chart_h + 1)).

(** The body of the loop over the enumerated rows. *)
Definition draw_bar (rows : list F) (canvas : list (list Z)) (i_row : Z * F)
  : result (list (list Z)) :=
  let '(i, row) := i_row in
  extent ← bar_extent rows row;
  let bar_width := Z.max 1 extent in
  let y0 := chart_top + i * (bar_h + bar_gap) in
  let y1 := y0 + bar_h in
  let x0 := chart_left in
  let x1 := Z.min (chart_width - chart_right) (x0 + bar_width) in
  for_each (λ canvas y,
              update_row canvas y
                (λ row_px,
                   fold_left (λ row_px x, let p := x * 3 in
                                          slice_assign row_px p (p + 3) bar_color)
                             (py_range x0 x1) row_px))
           canvas (py_range y0 y1).

(** The height and the scanlines handed to [make_png]. *)
Definition chart_rows (rows : list F) : result (Z * list (list byte)) :=
  match rows with
  | [] => Raise ValueError
  | _ =>
      let chart_h := Z.of_nat (length rows) * (bar_h + bar_gap) - bar_gap in
      let height := chart_top + chart_h + chart_bottom in
      let canvas := map (λ _, concat (replicate (Z.to_nat chart_width) background))
                        (py_range 0 height) in
      canvas ← draw_axis height chart_h canvas;
      canvas ← for_each (draw_bar rows) canvas
                        (zip (seqZ 0 (Z.of_nat (length rows))) rows);
      rgb_rows ← for_each (λ rgb_rows row, bs ← bytes_of_ints row; Ok (rgb_rows ++ [bs]))
                          [] canvas;
      Ok (height, rgb_rows)
  end.

Definition draw_bar_chart (rows : list F) (path : string) (fs : FS)
  : FS * result unit :=
  match chart_rows rows with
  | Ok (height, rgb_rows) => make_png compress io chart_width height rgb_rows path fs
  | Raise e => (fs, Raise e)
  end.

End Chart.

Arguments draw_bar_chart F bar_extent compress {FS} io rows path fs.

(** ** The picture of the chart *)

(** The pixel lies in the bar of one of the rows. *)
Definition bar_at (extents : list Z) (x y : Z) : bool :=
  match extents !! Z.to_nat ((y - 40) / 52) with
  | Some extent =>
      (40 <=? y) && ((y - 40) mod 52 <? 36)
      && (200 <=? x) && (x <? Z.min 1160 (200 + Z.max 1 extent))
  | None => false
  end.

(** The pixel lies on the axis line of a chart of [n] rows. *)
Definition axis_at (n : nat) (x y : Z) : bool :=
  (x =? 199) && (30 <=? y) && (y <=? 52 * Z.of_nat n + 24).

Definition chart_pixel (extents : list Z) (x y : Z) : list Z :=
  if bar_at extents x y then bar_color
  else if axis_at (length extents) x y then axis_color
  else background.

Definition chart_height (n : nat) : Z := 52 * Z.of_nat n + 54.

(** The pixel lies in the bar of the row of rank [k], drawn for [extent]. *)
Definition in_band (k : nat) (extent : Z) (x y : Z) : bool :=
  (40 + 52 * Z.of_nat k <=? y) && (y <? 76 + 52 * Z.of_nat k)
  && (200 <=? x) && (x <? Z.min 1160 (200 + Z.max 1 extent)).

(** The pixel lies in one of the bars drawn for the ranks from [k] on. *)
Fixpoint bars_from (k : nat) (extents : list Z) (x y : Z) : bool :=
  match extents with
  | [] => false
  | extent :: extents' => in_band k extent x y || bars_from (S k) extents' x y
  end.

(** A colour: three samples, each a byte. *)
Definition is_color (c : list Z) : Prop :=
  length c = 3%nat ∧ Forall (λ v, in_range 0 255 v = true) c.

(** Scanlines from a function of the pixel place. *)
Definition render_row {A : Type} (g : nat → list A) (w : nat) : list A :=
  flat_map g (seq 0 w).

Definition render {A : Type} (G : nat → nat → list A) (h w : nat) : list (list A) :=
  map (λ y, render_row (G y) w) (seq 0 h).

Definition chart_image (extents : list Z) : list (list byte) :=
  render (λ y x, map byte_of_Z (chart_pixel extents (Z.of_nat x) (Z.of_nat y)))
         (Z.to_nat (chart_height (length extents))) 1200.

(** ** Notions for the further properties *)

(** The column and the text a cell contributes to its row. *)
Definition cell_entry (shared_strings : list string) (cell : element)
  : result (Z * string) :=
  idx ← cell_column cell;
  match find "v" cell with
  | None => Ok (idx, ""%string)
  | Some raw =>
      if decide (attrib cell !! "t"%string = Some "s"%string) then
        i ← py_int (text raw);
        s ← list_getitem shared_strings i;
        Ok (idx, s)
      else Ok (idx, default ""%string (text raw))
  end.

(** The text after the last separator found by [str_split]. *)
Definition last_piece (label : string) : list ascii :=
  List.last (str_split (chars " - ") (chars label)) [].

(** The name [normalize_course_name] gives. *)
Definition course_name (label : string) : string :=
  string_of_list_ascii (sub_spaces false (str_strip (last_piece label))).

(** No whitespace but single spaces, and none at either end. *)
Fixpoint single_spaced (after_space : bool) (cs : list ascii) : bool :=
  match cs with
  | [] => negb after_space
  | c :: cs' =>
      if isspace c
      then Ascii.eqb c " " && negb after_space && single_spaced true cs'
      else single_spaced false cs'
  end.

Definition whitespace_normal (cs : list ascii) : bool :=
  match cs with
  | [] => true
  | _ => single_spaced true cs
  end.

Definition non_spaces (cs : list ascii) : list ascii :=
  List.filter (λ c, negb (isspace c)) cs.

(** The string holds the sharp s, the one letter of the range whose upper
    case is two characters. *)
Definition has_sharp_s (s : string) : bool :=
  existsb (λ c, ord c =? 223) (chars s).

(** * Properties *)

(** ** Loops *)

Lemma bind_Ok {A B : Type} (f : A → result B) (a : A) : (Ok a ≫= f) = f a.
Proof. reflexivity. Qed.

Lemma bind_Raise {A B : Type} (f : A → result B) (e : exn) : (Raise e ≫= f) = Raise e.
Proof. reflexivity. Qed.

Lemma bind_Ok_inv {A B : Type} (f : A → result B) (m : result A) (b : B) :
  (m ≫= f) = Ok b → ∃ a, m = Ok a ∧ f a = Ok b.
Proof. destruct m as [a|e]; [eauto | discriminate]. Qed.

Lemma for_each_app {A S : Type} (body : S → A → result S) (s : S) (xs ys : list A) :
  for_each body s (xs ++ ys) = (for_each body s xs ≫= λ s', for_each body s' ys).
Proof.
  revert s. induction xs as [|x xs IH]; intros s; [reflexivity|].
  simpl. destruct (body s x) as [s'|e]; [apply IH | reflexivity].
Qed.

(** An element on which the body raises in every state makes the loop raise. *)
Lemma for_each_raises {A S : Type} (body : S → A → result S) (x : A) (xs : list A) :
  x ∈ xs → (∀ s, ∃ e, body s x = Raise e) →
  ∀ s, ∃ e, for_each body s xs = Raise e.
Proof.
  intros Hin Hx. induction xs as [|y ys IH]; intros s.
  - inversion Hin.
  - simpl. apply elem_of_cons in Hin as [<-|Hin].
    + destruct (Hx s) as [e ->]. eauto.
    + destruct (body s y) as [s'|e]; [apply IH, Hin | eauto].
Qed.

(** The loop stops at the first exception. *)
Lemma for_each_stops {A S : Type} (body : S → A → result S) (s s' : S)
    (pre post : list A) (x : A) (e : exn) :
  for_each body s pre = Ok s' → body s' x = Raise e →
  for_each body s (pre ++ x :: post) = Raise e.
Proof. intros Hpre Hx. rewrite for_each_app, Hpre. simpl. rewrite Hx. reflexivity. Qed.

(** ** Bytes and big-endian fields *)

Lemma byte_val_range (b : byte) : 0 ≤ byte_val b < 256.
Proof. unfold byte_val. pose proof (Byte.to_N_bounded b). lia. Qed.

Lemma byte_val_inj (a b : byte) : byte_val a = byte_val b → a = b.
Proof.
  unfold byte_val. intros H. apply N2Z.inj in H.
  pose proof (Byte.of_to_N a) as Ha. rewrite H, Byte.of_to_N in Ha. congruence.
Qed.

Lemma byte_val_of_Z (z : Z) : byte_val (byte_of_Z z) = z mod 256.
Proof.
  unfold byte_of_Z, byte_val.
  change 255 with (Z.ones 8). rewrite Z.land_ones by lia. change (2 ^ 8) with 256.
  pose proof (Z.mod_pos_bound z 256 ltac:(lia)) as Hr.
  destruct (Byte.of_N (Z.to_N (z mod 256))) as [b|] eqn:Hb.
  - simpl. apply Byte.to_of_N in Hb. rewrite Hb. lia.
  - apply Byte.of_N_None_iff in Hb. lia.
Qed.

Lemma big_endian_4 (a b c d : byte) :
  big_endian [a; b; c; d]
  = ((byte_val a * 256 + byte_val b) * 256 + byte_val c) * 256 + byte_val d.
Proof. unfold big_endian. simpl. lia. Qed.

Lemma pack_field_I (n : Z) :
  u32 n → ∃ bs, pack_field fmt_I n = Ok bs ∧ be32 n bs.
Proof.
  unfold u32. intros Hn. unfold pack_field, in_range.
  replace ((0 <=? n) && (n <=? 4294967295)) with true
    by (symmetry; apply andb_true_iff; split; lia).
  eexists. split; [reflexivity|]. split; [reflexivity|].
  rewrite big_endian_4, !byte_val_of_Z, !Z.shiftr_div_pow2 by lia.
  change (2 ^ 24) with 16777216. change (2 ^ 16) with 65536. change (2 ^ 8) with 256.
  Z.div_mod_to_equations. lia.
Qed.

Lemma pack_field_I_Raise (n : Z) : ¬ u32 n → pack_field fmt_I n = Raise StructError.
Proof.
  unfold u32, pack_field, in_range. intros Hn.
  destruct ((0 <=? n) && (n <=? 4294967295)) eqn:H; [|reflexivity].
  apply andb_true_iff in H. lia.
Qed.

Lemma struct_pack_I (n : Z) :
  struct_pack [fmt_I] [n] = pack_field fmt_I n.
Proof.
  cbn [struct_pack]. destruct (pack_field fmt_I n) as [f|e]; [|reflexivity].
  cbn. rewrite app_nil_r. reflexivity.
Qed.

Lemma pack_I_be32 (n : Z) :
  u32 n → ∃ bs, struct_pack [fmt_I] [n] = Ok bs ∧ be32 n bs.
Proof. rewrite struct_pack_I. apply pack_field_I. Qed.

Lemma pack_I_out_of_range (n : Z) :
  ¬ u32 n → struct_pack [fmt_I] [n] = Raise StructError.
Proof. rewrite struct_pack_I. apply pack_field_I_Raise. Qed.

Lemma pack_I_range (n : Z) (bs : list byte) :
  struct_pack [fmt_I] [n] = Ok bs → u32 n.
Proof.
  intros H. destruct (decide (u32 n)) as [Hn|Hn]; [exact Hn|].
  rewrite (pack_I_out_of_range n Hn) in H. discriminate.
Qed.

Lemma be32_unique (n : Z) (a b : list byte) : be32 n a → be32 n b → a = b.
Proof.
  intros [La Ha] [Lb Hb].
  destruct a as [|a0 [|a1 [|a2 [|a3 [|]]]]]; try discriminate.
  destruct b as [|b0 [|b1 [|b2 [|b3 [|]]]]]; try discriminate.
  rewrite big_endian_4 in Ha, Hb.
  pose proof (byte_val_range a0). pose proof (byte_val_range a1).
  pose proof (byte_val_range a2). pose proof (byte_val_range a3).
  pose proof (byte_val_range b0). pose proof (byte_val_range b1).
  pose proof (byte_val_range b2). pose proof (byte_val_range b3).
  f_equal; [|f_equal; [|f_equal; [|f_equal]]]; apply byte_val_inj; lia.
Qed.

(** ** The checksum *)

Lemma u32_land (z : Z) : u32 z ↔ Z.land z 0xFFFFFFFF = z.
Proof.
  unfold u32. change 0xFFFFFFFF with (Z.ones 32). rewrite Z.land_ones by lia.
  split; intros H.
  - apply Z.mod_small, H.
  - rewrite <- H. apply Z.mod_pos_bound. lia.
Qed.

Lemma u32_lxor (a b : Z) : u32 a → u32 b → u32 (Z.lxor a b).
Proof.
  rewrite !u32_land. intros Ha Hb.
  rewrite <- Ha, <- Hb at 2. apply Z.bits_inj'. intros n _.
  rewrite !Z.land_spec, !Z.lxor_spec, !Z.land_spec.
  destruct (Z.testbit a n), (Z.testbit b n), (Z.testbit 0xFFFFFFFF n); reflexivity.
Qed.

Lemma u32_shiftr (c : Z) : u32 c → u32 (c ≫ 1).
Proof.
  unfold u32. intros H. rewrite Z.shiftr_div_pow2 by lia.
  change (2 ^ 1) with 2. Z.div_mod_to_equations. lia.
Qed.

Lemma u32_crc_shift (c : Z) : u32 c → u32 (crc_shift c).
Proof.
  intros H. unfold crc_shift. destruct (Z.testbit c 0).
  - apply u32_lxor; [apply u32_shiftr, H | unfold u32, crc_poly; lia].
  - apply u32_shiftr, H.
Qed.

Lemma u32_crc_byte (c : Z) (b : byte) : u32 c → u32 (crc_byte c b).
Proof.
  intros H. unfold crc_byte.
  assert (u32 (Z.lxor c (byte_val b))) as H0.
  { apply u32_lxor; [exact H|]. pose proof (byte_val_range b). unfold u32. lia. }
  revert H0. generalize (Z.lxor c (byte_val b)). intros z Hz.
  simpl. do 8 apply u32_crc_shift. exact Hz.
Qed.

Lemma u32_crc32 (data : list byte) : u32 (crc32 data).
Proof.
  unfold crc32. apply u32_lxor; [|unfold u32; lia].
  assert (u32 0xFFFFFFFF) as H by (unfold u32; lia).
  revert H. generalize 0xFFFFFFFF. induction data as [|b data IH]; intros c Hc.
  - exact Hc.
  - simpl. apply IH, u32_crc_byte, Hc.
Qed.

(** The check value of the CRC-32 of the zip and deflate family. *)
Example crc32_check_value :
  crc32 [x31; x32; x33; x34; x35; x36; x37; x38; x39] = 0xCBF43926.
Proof. vm_compute. reflexivity. Qed.

Example crc32_empty : crc32 [] = 0.
Proof. vm_compute. reflexivity. Qed.

(** ** Chunks *)

Lemma chunk_Ok (tag data : list byte) :
  u32 (Z.of_nat (length data)) → ∃ out, chunk tag data = Ok out ∧ framed tag data out.
Proof.
  intros Hlen. unfold chunk.
  destruct (pack_I_be32 _ Hlen) as (len & -> & Hl).
  pose proof (u32_crc32 (tag ++ data)) as Hc.
  rewrite (proj1 (u32_land _) Hc).
  destruct (pack_I_be32 _ Hc) as (crc & -> & Hcrc).
  eexists. split; [reflexivity|]. exists len, crc. auto.
Qed.

Lemma chunk_Ok_inv (tag data out : list byte) :
  chunk tag data = Ok out → u32 (Z.of_nat (length data)) ∧ framed tag data out.
Proof.
  intros H.
  assert (u32 (Z.of_nat (length data))) as Hlen.
  { unfold chunk in H. apply bind_Ok_inv in H as (len & Hl & _).
    eapply pack_I_range, Hl. }
  split; [exact Hlen|].
  destruct (chunk_Ok tag data Hlen) as (out' & Hout & Hf). congruence.
Qed.

Lemma chunk_Raise (tag data : list byte) :
  ¬ u32 (Z.of_nat (length data)) → chunk tag data = Raise StructError.
Proof. intros H. unfold chunk. rewrite (pack_I_out_of_range _ H). reflexivity. Qed.

(** C2. Every chunk is framed as the 4-byte big-endian length of its data
    (the tag not counted), the tag, the data, and the 4-byte big-endian
    CRC-32 of the tag followed by the data (the length not covered): a chunk
    whose data is shorter than 2^32 bytes is produced and has this frame, and
    nothing but such a frame is ever produced. *)
Theorem chunk_framing (tag data : list byte) :
  Z.of_nat (length data) < 2 ^ 32 →
  (∃ out, chunk tag data = Ok out ∧ framed tag data out)
  ∧ (∀ out, chunk tag data = Ok out →
       ∃ len crc, out = len ++ tag ++ data ++ crc
                  ∧ length len = 4%nat ∧ big_endian len = Z.of_nat (length data)
                  ∧ length crc = 4%nat ∧ big_endian crc = crc32 (tag ++ data)).
Proof.
  intros Hlen. split.
  - apply chunk_Ok. unfold u32. lia.
  - intros out H. apply chunk_Ok_inv in H as [_ (len & crc & -> & [? ?] & [? ?])].
    exists len, crc. auto.
Qed.

Lemma chunk_framing_witness :
  Z.of_nat (length tag_IEND) < 2 ^ 32
  ∧ (∃ out, chunk tag_IHDR tag_IEND = Ok out ∧ framed tag_IHDR tag_IEND out)
  ∧ (∀ out, chunk tag_IHDR tag_IEND = Ok out →
       ∃ len crc, out = len ++ tag_IHDR ++ tag_IEND ++ crc
                  ∧ length len = 4%nat ∧ big_endian len = Z.of_nat (length tag_IEND)
                  ∧ length crc = 4%nat ∧ big_endian crc = crc32 (tag_IHDR ++ tag_IEND)).
Proof. split; [|apply chunk_framing]; simpl; lia. Defined.

Example chunk_IEND :
  chunk tag_IEND [] = Ok [x00; x00; x00; x00; x49; x45; x4e; x44; xae; x42; x60; x82].
Proof. vm_compute. reflexivity. Qed.

(** ** The encoder *)

Lemma pack_header (width height : Z) :
  u32 width → u32 height →
  ∃ w4 h4, struct_pack header_format [width; height; 8; 2; 0; 0; 0]
           = Ok (w4 ++ h4 ++ [x08; x02; x00; x00; x00])
           ∧ be32 width w4 ∧ be32 height h4.
Proof.
  intros Hw Hh.
  destruct (pack_field_I width Hw) as (w4 & Ew & Hw4).
  destruct (pack_field_I height Hh) as (h4 & Eh & Hh4).
  exists w4, h4. split; [|auto].
  unfold header_format. cbn [struct_pack]. rewrite Ew, Eh. reflexivity.
Qed.

Lemma pack_header_Raise (width height : Z) :
  ¬ (u32 width ∧ u32 height) →
  struct_pack header_format [width; height; 8; 2; 0; 0; 0] = Raise StructError.
Proof.
  intros H. unfold header_format. cbn [struct_pack].
  destruct (decide (u32 width)) as [Hw|Hw].
  - destruct (pack_field_I width Hw) as (w4 & -> & _).
    rewrite (pack_field_I_Raise height) by tauto. reflexivity.
  - rewrite (pack_field_I_Raise width Hw). reflexivity.
Qed.

Lemma raw_scanline_stream (rgb_rows : list (list byte)) :
  concat (map (λ row, [x00] ++ row) rgb_rows) = scanline_stream rgb_rows.
Proof. unfold scanline_stream. rewrite flat_map_concat_map. reflexivity. Qed.

Section EncoderProperties.

Variable compress : list byte → Z → list byte.

Lemma make_png_bytes_Ok (width height : Z) (rgb_rows : list (list byte)) :
  fields_fit compress width height rgb_rows →
  ∃ png, make_png_bytes compress width height rgb_rows = Ok png
         ∧ png_layout width height (compress (scanline_stream rgb_rows) 9) png.
Proof.
  intros (Hw & Hh & Hc). unfold make_png_bytes. rewrite raw_scanline_stream.
  destruct (pack_header width height Hw Hh) as (w4 & h4 & E & Hw4 & Hh4).
  rewrite E, bind_Ok.
  destruct (chunk_Ok tag_IHDR (w4 ++ h4 ++ [x08; x02; x00; x00; x00])) as (c1 & -> & F1).
  { destruct Hw4 as [Lw _], Hh4 as [Lh _]. rewrite !length_app, Lw, Lh.
    unfold u32. simpl. lia. }
  destruct (chunk_Ok tag_IDAT _ Hc) as (c2 & -> & F2).
  destruct (chunk_Ok tag_IEND []) as (c3 & -> & F3); [unfold u32; simpl; lia|].
  eexists. split; [reflexivity|].
  exists w4, h4, c1, c2, c3. auto 10.
Qed.

Lemma make_png_bytes_Raise (width height : Z) (rgb_rows : list (list byte)) :
  ¬ fields_fit compress width height rgb_rows →
  make_png_bytes compress width height rgb_rows = Raise StructError.
Proof.
  intros H. unfold make_png_bytes. rewrite raw_scanline_stream.
  destruct (decide (u32 width ∧ u32 height)) as [[Hw Hh]|Hwh].
  - destruct (pack_header width height Hw Hh) as (w4 & h4 & -> & Hw4 & Hh4).
    rewrite bind_Ok.
    destruct (chunk_Ok tag_IHDR (w4 ++ h4 ++ [x08; x02; x00; x00; x00])) as (c1 & -> & F1).
    { destruct Hw4 as [Lw _], Hh4 as [Lh _]. rewrite !length_app, Lw, Lh.
      unfold u32. simpl. lia. }
    rewrite bind_Ok, (chunk_Raise tag_IDAT); [reflexivity|].
    unfold fields_fit in H. tauto.
  - rewrite (pack_header_Raise _ _ Hwh). reflexivity.
Qed.

End EncoderProperties.

Lemma framed_unique (tag data out1 out2 : list byte) :
  framed tag data out1 → framed tag data out2 → out1 = out2.
Proof.
  intros (l1 & c1 & -> & Hl1 & Hc1) (l2 & c2 & -> & Hl2 & Hc2).
  rewrite (be32_unique _ _ _ Hl1 Hl2), (be32_unique _ _ _ Hc1 Hc2). reflexivity.
Qed.

(** The layout determines the file byte for byte. *)
Lemma png_layout_unique (width height : Z) (compressed png1 png2 : list byte) :
  png_layout width height compressed png1 → png_layout width height compressed png2 →
  png1 = png2.
Proof.
  intros (w & h & a & b & c & -> & Hw & Hh & Fa & Fb & Fc)
         (w' & h' & a' & b' & c' & -> & Hw' & Hh' & Fa' & Fb' & Fc').
  rewrite (be32_unique _ _ _ Hw' Hw), (be32_unique _ _ _ Hh' Hh) in Fa'.
  rewrite (framed_unique _ _ _ _ Fa Fa'), (framed_unique _ _ _ _ Fb Fb'),
          (framed_unique _ _ _ _ Fc Fc').
  reflexivity.
Qed.

(** C1, as amended. For a width and a height from 1 to 2^32-1, scanlines of
    [width*3] bytes each and a compressed stream shorter than 2^32 bytes, the
    bytes the encoder puts out are exactly: the signature, the header chunk
    with the big-endian width and height and the bytes 8, 2, 0, 0, 0, the
    data chunk with the compressed stream of the scanlines each after a
    filter byte 0, and the empty trailer chunk, in this order; and what
    [make_png] does is to make the directory and write these bytes to the
    path. *)
Theorem make_png_layout (compress : list byte → Z → list byte) {FS : Type}
    (io : file_ops FS) (width height : Z) (rgb_rows : list (list byte))
    (path : string) (fs : FS) :
  1 ≤ width < 2 ^ 32 → 1 ≤ height < 2 ^ 32 →
  Forall (λ row, Z.of_nat (length row) = width * 3) rgb_rows →
  Z.of_nat (length (compress (scanline_stream rgb_rows) 9)) < 2 ^ 32 →
  ∃ png, make_png_bytes compress width height rgb_rows = Ok png
         ∧ png_layout width height (compress (scanline_stream rgb_rows) 9) png
         ∧ make_png compress io width height rgb_rows path fs
           = write_file io path png fs.
Proof.
  intros Hw Hh _ Hc.
  destruct (make_png_bytes_Ok compress width height rgb_rows) as (png & E & L).
  { unfold fields_fit, u32. lia. }
  exists png. unfold make_png. rewrite E. auto.
Qed.

Lemma make_png_layout_witness :
  ∃ png, make_png_bytes deflate_stored 1 1 [[x00; x00; x00]] = Ok png
         ∧ png_layout 1 1 (deflate_stored (scanline_stream [[x00; x00; x00]]) 9) png
         ∧ make_png deflate_stored plain_fs 1 1 [[x00; x00; x00]]
                    "outputs/rank_order.png" ∅
           = write_file plain_fs "outputs/rank_order.png" png ∅.
Proof.
  apply make_png_layout.
  - lia.
  - lia.
  - repeat constructor.
  - vm_compute. reflexivity.
Defined.

(** On the file system [plain_fs], empty at first, the directory is made and
    the file holds the bytes of the layout. *)
Example make_png_plain_fs :
  ∃ png, make_png deflate_stored plain_fs 1 1 [[x00; x00; x00]]
                  "outputs/rank_order.png" ∅
         = (<["outputs/rank_order.png"%string := File png]>
              (<["outputs"%string := Dir]> ∅), Ok tt)
         ∧ png_layout 1 1 (deflate_stored (scanline_stream [[x00; x00; x00]]) 9) png.
Proof.
  destruct (make_png_bytes_Ok deflate_stored 1 1 [[x00; x00; x00]]) as (png & E & L).
  { unfold fields_fit, u32. vm_compute. intuition discriminate. }
  exists png. split; [|exact L]. unfold make_png. rewrite E. reflexivity.
Qed.

(** Where a file stands in the place of the directory, [make_png] raises and
    the image is not written, although every field fits. *)
Example make_png_directory_taken :
  make_png deflate_stored plain_fs 1 1 [[x00; x00; x00]] "outputs/rank_order.png"
           {[ "outputs"%string := File [] ]}
  = ({[ "outputs"%string := File [] ]}, Raise FileExistsError).
Proof. vm_compute. reflexivity. Qed.

(** C1, the claim as written fails: a height of 2^32 is at least 1 and the
    scanline has [width*3] bytes, but the header cannot be packed and nothing
    is written. *)
Lemma make_png_layout_counterexample :
  1 ≤ 1 ∧ 1 ≤ 4294967296
  ∧ Forall (λ row : list byte, Z.of_nat (length row) = 1 * 3) [[x00; x00; x00]]
  ∧ make_png_bytes deflate_stored 1 4294967296 [[x00; x00; x00]] = Raise StructError
  ∧ make_png deflate_stored plain_fs 1 4294967296 [[x00; x00; x00]]
             "outputs/rank_order.png" ∅
    = (∅, Raise StructError).
Proof.
  split; [lia|]. split; [lia|]. split; [repeat constructor|].
  split; vm_compute; reflexivity.
Qed.

(** C3, as amended. The encoder does not look at the geometry. When the
    width, the height or the length of the compressed stream does not fit
    its unsigned 32-bit field, it raises before it touches the file system,
    which is left as it was: no byte is written. In every other case, also
    with a scanline whose length is not [width*3] and with a zero width or
    height, it raises nothing of its own: it assembles the complete file
    first and then makes the directory and writes all bytes with one call,
    so that the outcome, a failure and what it leaves behind included, is
    that of these two operations of the file system; when making the
    directory fails, nothing is written. *)
Theorem make_png_no_validation (compress : list byte → Z → list byte) {FS : Type}
    (io : file_ops FS) (width height : Z) (rgb_rows : list (list byte))
    (path : string) (fs : FS) :
  (fields_fit compress width height rgb_rows →
   ∃ png, make_png_bytes compress width height rgb_rows = Ok png
          ∧ png_layout width height (compress (scanline_stream rgb_rows) 9) png
          ∧ make_png compress io width height rgb_rows path fs
            = write_file io path png fs
          ∧ (∀ fs' e, mkdir_parent io path fs = (fs', Raise e) →
               make_png compress io width height rgb_rows path fs = (fs', Raise e))
          ∧ (∀ fs', mkdir_parent io path fs = (fs', Ok tt) →
               make_png compress io width height rgb_rows path fs
               = write_bytes io path png fs'))
  ∧ (¬ fields_fit compress width height rgb_rows →
     make_png_bytes compress width height rgb_rows = Raise StructError
     ∧ make_png compress io width height rgb_rows path fs = (fs, Raise StructError)).
Proof.
  unfold make_png. split; intros H.
  - destruct (make_png_bytes_Ok compress width height rgb_rows H) as (png & -> & L).
    exists png. split; [reflexivity|]. split; [exact L|]. split; [reflexivity|].
    unfold write_file. split.
    + intros fs' e ->. reflexivity.
    + intros fs' ->. reflexivity.
  - rewrite (make_png_bytes_Raise compress width height rgb_rows H). auto.
Qed.

Lemma make_png_no_validation_witness :
  fields_fit deflate_stored 0 0 [[x00]]
  ∧ ∃ png, make_png_bytes deflate_stored 0 0 [[x00]] = Ok png
           ∧ png_layout 0 0 (deflate_stored (scanline_stream [[x00]]) 9) png
           ∧ make_png deflate_stored plain_fs 0 0 [[x00]] "outputs/rank_order.png" ∅
             = write_file plain_fs "outputs/rank_order.png" png ∅.
Proof.
  assert (fields_fit deflate_stored 0 0 [[x00]]) as H.
  { unfold fields_fit, u32. vm_compute. intuition discriminate. }
  split; [exact H|].
  destruct (proj1 (make_png_no_validation deflate_stored plain_fs 0 0 [[x00]]
                     "outputs/rank_order.png" ∅) H) as (png & E & L & W & _).
  exists png. auto.
Defined.

(** C3, the claim as written fails: with a scanline of one byte for a width
    of 2, and with a width and a height of zero, the encoder raises nothing
    and a file that begins with the signature is written. *)
Lemma make_png_invalid_geometry_counterexample :
  (Exists (λ row : list byte, Z.of_nat (length row) ≠ 2 * 3) [[x00]]
   ∧ ∃ png, make_png deflate_stored plain_fs 2 1 [[x00]] "outputs/rank_order.png" ∅
            = (<["outputs/rank_order.png"%string := File png]>
                 (<["outputs"%string := Dir]> ∅), Ok tt)
            ∧ take 8 png = png_signature)
  ∧ (∃ png, make_png deflate_stored plain_fs 0 0 [] "outputs/rank_order.png" ∅
            = (<["outputs/rank_order.png"%string := File png]>
                 (<["outputs"%string := Dir]> ∅), Ok tt)
            ∧ take 8 png = png_signature).
Proof.
  split; [split|].
  - constructor. simpl. lia.
  - eexists. split; [vm_compute; reflexivity | reflexivity].
  - eexists. split; [vm_compute; reflexivity | reflexivity].
Qed.

(** ** Column indices *)

Local Ltac each_char c :=
  destruct c as [[] [] [] [] [] [] [] []].

Lemma digit_value_upper (c : ascii) (d : Z) :
  digit_value c = Some d →
  isalpha c = true ∧ ord_str (upper c) = Ok (d + 64) ∧ 1 ≤ d ≤ 26.
Proof.
  each_char c; vm_compute; intros H; try discriminate H;
    injection H as <-; (split; [reflexivity|]); (split; [reflexivity|]);
    split; discriminate.
Qed.

Lemma digit_value_letter_run (c : ascii) :
  in_range 65 90 (ord c) = true → digit_value c = Some (ord c - 64).
Proof. each_char c; vm_compute; intros H; try discriminate H; reflexivity. Qed.

Lemma ord_inj (c1 c2 : ascii) : ord c1 = ord c2 → c1 = c2.
Proof.
  unfold ord. intros H. apply N2Z.inj in H.
  rewrite <- (ascii_N_embedding c1), <- (ascii_N_embedding c2), H. reflexivity.
Qed.

Lemma length_chars (s : string) : length (chars s) = String.length s.
Proof. unfold chars. induction s as [|c s IH]; simpl; congruence. Qed.

Lemma chars_inj (s1 s2 : string) : chars s1 = chars s2 → s1 = s2.
Proof.
  unfold chars. intros H.
  rewrite <- (string_of_list_ascii_of_string s1), <- (string_of_list_ascii_of_string s2), H.
  reflexivity.
Qed.

(** The loop of [col_index] on the letters, from any accumulator. *)
Lemma col_index_loop (cs : list ascii) (value : Z) :
  forallb (λ c, implb (isalpha c) (bool_decide (is_Some (digit_value c)))) cs = true →
  for_each (λ value ch, o ← ord_str (upper ch); Ok (value * 26 + (o - 64)))
           value (List.filter isalpha cs)
  = Ok (fold_left (λ value d, value * 26 + d) (omap digit_value cs) value).
Proof.
  revert value. induction cs as [|c cs IH]; intros value H; [reflexivity|].
  simpl in H. apply andb_true_iff in H as [Hc Hcs].
  simpl. destruct (digit_value c) as [d|] eqn:Hd.
  - destruct (digit_value_upper c d Hd) as (-> & Hu & _).
    simpl. rewrite Hu, bind_Ok, bind_Ok.
    replace (d + 64 - 64) with d by lia. apply IH, Hcs.
  - destruct (isalpha c).
    + vm_compute in Hc. discriminate Hc.
    + apply IH, Hcs.
Qed.

Lemma col_index_fold (s : string) :
  latin_letters s = true →
  col_index s = Ok (fold_left (λ value d, value * 26 + d) (letter_digits s) 0 - 1).
Proof.
  intros H. unfold col_index. fold (chars s).
  rewrite (col_index_loop (chars s) 0 H). reflexivity.
Qed.

(** Accumulating [value*26 + digit] computes the base-26 numeral. *)
Lemma fold_numeral26 (ds : list Z) (value : Z) :
  fold_left (λ value d, value * 26 + d) ds value
  = value * 26 ^ Z.of_nat (length ds) + numeral26 ds.
Proof.
  revert value. induction ds as [|d ds IH]; intros value.
  - simpl. lia.
  - cbn [fold_left numeral26 length]. rewrite IH, Nat2Z.inj_succ, Z.pow_succ_r by lia.
    ring.
Qed.

Lemma numeral26_pos (ds : list Z) :
  Forall (λ d, 1 ≤ d ≤ 26) ds → ds ≠ [] → 1 ≤ numeral26 ds.
Proof.
  induction 1 as [|d ds Hd Hds IH]; [congruence|]. intros _. simpl.
  assert (0 ≤ numeral26 ds) as H0.
  { destruct ds as [|d' ds']; [simpl; lia|]. assert (1 ≤ numeral26 (d' :: ds')); [|lia].
    apply IH. discriminate. }
  assert (1 ≤ 26 ^ Z.of_nat (length ds)) by (apply Z.pow_le_mono_r with (b := 0); lia).
  nia.
Qed.

Lemma letter_digits_range (cs : list ascii) :
  Forall (λ d, 1 ≤ d ≤ 26) (omap digit_value cs).
Proof.
  induction cs as [|c cs IH]; [constructor|].
  simpl. destruct (digit_value c) as [d|] eqn:Hd; [|exact IH].
  constructor; [apply (digit_value_upper c d Hd) | exact IH].
Qed.

Lemma has_letter_digits (s : string) :
  latin_letters s = true → has_letter s = true → letter_digits s ≠ [].
Proof.
  unfold latin_letters, has_letter, letter_digits.
  induction (chars s) as [|c cs IH]; simpl; [discriminate|].
  intros Hl He. apply andb_true_iff in Hl as [Hc Hcs].
  destruct (digit_value c) as [d|] eqn:Hd; [discriminate|].
  destruct (isalpha c).
  - vm_compute in Hc. discriminate Hc.
  - apply IH; assumption.
Qed.

(** C4, as amended. On a reference whose letters are Latin letters, A to Z
    in either case, and that has at least
    one letter, [col_index] returns the value of the letter run read as a
    base-26 numeral with the digits A=1 .. Z=26, which is what accumulating
    [value*26 + digit] over the letters in order gives, minus one; the
    characters that are not letters do not count. In particular "A" gives 0,
    "Z" 25, "AA" 26 and "AMJ" 1023. *)
Theorem col_index_base26 :
  (∀ s : string,
     latin_letters s = true → has_letter s = true →
     col_index s = Ok (numeral26 (letter_digits s) - 1)
     ∧ numeral26 (letter_digits s)
       = fold_left (λ value digit, value * 26 + digit) (letter_digits s) 0
     ∧ 0 ≤ numeral26 (letter_digits s) - 1)
  ∧ col_index "A" = Ok 0 ∧ col_index "Z" = Ok 25
  ∧ col_index "AA" = Ok 26 ∧ col_index "AMJ" = Ok 1023.
Proof.
  split; [|repeat split; vm_compute; reflexivity].
  intros s Hl He.
  pose proof (fold_numeral26 (letter_digits s) 0) as Hf. simpl in Hf.
  split; [|split].
  - rewrite (col_index_fold s Hl), Hf. reflexivity.
  - symmetry. exact Hf.
  - pose proof (numeral26_pos (letter_digits s) (letter_digits_range (chars s))
                  (has_letter_digits s Hl He)). lia.
Qed.

(** C4, the claim as written fails. A reference with the letter U+00C9
    before an A has a letter, and [col_index] gives 3562 for it, not the 0
    of the letter run A read in base 26; a reference with the sharp s has a
    letter, and [col_index] raises instead of returning an index. *)
Lemma col_index_base26_counterexample :
  has_letter (String (ascii_of_nat 201) "A") = true
  ∧ col_index (String (ascii_of_nat 201) "A") = Ok 3562
  ∧ numeral26 (letter_digits (String (ascii_of_nat 201) "A")) - 1 = 0
  ∧ has_letter (String (ascii_of_nat 223) "1") = true
  ∧ col_index (String (ascii_of_nat 223) "1") = Raise TypeError.
Proof. repeat split; vm_compute; reflexivity. Qed.

Lemma col_index_base26_witness :
  latin_letters "$AC$12" = true ∧ has_letter "$AC$12" = true
  ∧ col_index "$AC$12" = Ok (numeral26 (letter_digits "$AC$12") - 1)
  ∧ numeral26 (letter_digits "$AC$12") = 29.
Proof.
  split; [reflexivity|]. split; [reflexivity|]. split; [|reflexivity].
  apply (proj1 col_index_base26 "$AC$12"); reflexivity.
Defined.

(** Lowercase letters count as their uppercase; a letter outside A..Z gets a
    digit outside 1..26, and the sharp s, whose uppercase is two characters,
    makes [ord] raise. *)
Example col_index_lowercase : col_index "ac12" = Ok 28 ∧ col_index "AC12" = Ok 28.
Proof. split; vm_compute; reflexivity. Qed.

Example col_index_accented : col_index (String (ascii_of_nat 201) "1") = Ok 136.
Proof. vm_compute. reflexivity. Qed.

Example col_index_sharp_s : col_index (String (ascii_of_nat 223) "1") = Raise TypeError.
Proof. vm_compute. reflexivity. Qed.

(** ** Order of the column indices *)

Section LetterRuns.

Lemma run_cons (c : ascii) (cs : list ascii) :
  uppercase (c :: cs) = true → 65 ≤ ord c ≤ 90 ∧ uppercase cs = true.
Proof.
  unfold uppercase. simpl. intros H. apply andb_true_iff in H as [Hc Hcs].
  unfold in_range in Hc. apply andb_true_iff in Hc. split; [lia | exact Hcs].
Qed.

Lemma run_app (cs1 cs2 : list ascii) :
  uppercase (cs1 ++ cs2) = true → uppercase cs1 = true ∧ uppercase cs2 = true.
Proof. unfold uppercase. rewrite forallb_app. apply andb_true_iff. Qed.

Lemma run_digits (cs : list ascii) :
  uppercase cs = true → omap digit_value cs = map letter_ord cs.
Proof.
  induction cs as [|c cs IH]; intros H; [reflexivity|].
  unfold uppercase in H. simpl in H. apply andb_true_iff in H as [Hc Hcs].
  simpl. rewrite (digit_value_letter_run c Hc). simpl. f_equal. apply IH, Hcs.
Qed.

Lemma run_latin (cs : list ascii) :
  uppercase cs = true →
  forallb (λ c, implb (isalpha c) (bool_decide (is_Some (digit_value c)))) cs = true.
Proof.
  induction cs as [|c cs IH]; intros H; [reflexivity|].
  unfold uppercase in H. simpl in H. apply andb_true_iff in H as [Hc Hcs].
  simpl. rewrite (digit_value_letter_run c Hc), (IH Hcs).
  destruct (isalpha c); reflexivity.
Qed.

(** A smaller accumulator stays smaller over runs of one length. *)
Lemma run_value_acc (cs1 cs2 : list ascii) (a1 a2 : Z) :
  length cs1 = length cs2 → uppercase cs1 = true → uppercase cs2 = true → a1 < a2 →
  fold_left step26 (map letter_ord cs1) a1 < fold_left step26 (map letter_ord cs2) a2.
Proof.
  revert cs2 a1 a2. induction cs1 as [|c1 cs1 IH]; intros [|c2 cs2] a1 a2 L R1 R2 Ha;
    try discriminate L; [exact Ha|].
  apply run_cons in R1 as [H1 R1]. apply run_cons in R2 as [H2 R2].
  simpl. apply IH; [simpl in L; lia | assumption | assumption |].
  unfold step26, letter_ord. lia.
Qed.

Lemma run_value_alpha (cs1 cs2 : list ascii) (a : Z) :
  length cs1 = length cs2 → uppercase cs1 = true → uppercase cs2 = true →
  alpha_lt cs1 cs2 = true →
  fold_left step26 (map letter_ord cs1) a < fold_left step26 (map letter_ord cs2) a.
Proof.
  revert cs2 a. induction cs1 as [|c1 cs1 IH]; intros [|c2 cs2] a L R1 R2 Hlt;
    try discriminate L; try discriminate Hlt.
  pose proof R1 as R1'. pose proof R2 as R2'.
  apply run_cons in R1' as [H1 T1]. apply run_cons in R2' as [H2 T2].
  simpl in Hlt. apply orb_true_iff in Hlt as [Hlt|Hlt].
  - simpl. apply run_value_acc; [simpl in L; lia | assumption | assumption |].
    unfold step26, letter_ord. lia.
  - apply andb_true_iff in Hlt as [He Hlt]. apply Z.eqb_eq in He.
    apply ord_inj in He. subst c2. simpl. apply IH; [simpl in L; lia | assumption..].
Qed.

Lemma run_value_pos (cs : list ascii) :
  uppercase cs = true → cs ≠ [] → 1 ≤ fold_left step26 (map letter_ord cs) 0.
Proof.
  intros R Hne. unfold step26. rewrite fold_numeral26, <- (run_digits cs R).
  assert (omap digit_value cs ≠ []) as Hd.
  { rewrite (run_digits cs R). destruct cs; [congruence | discriminate]. }
  pose proof (numeral26_pos _ (letter_digits_range cs) Hd). lia.
Qed.

Lemma run_value_shorter (cs1 cs2 : list ascii) :
  (length cs1 < length cs2)%nat → uppercase cs1 = true → uppercase cs2 = true →
  fold_left step26 (map letter_ord cs1) 0 < fold_left step26 (map letter_ord cs2) 0.
Proof.
  intros L R1 R2.
  set (k := (length cs2 - length cs1)%nat).
  rewrite <- (take_drop k cs2) in R2 |- *.
  apply run_app in R2 as [Rp Rq].
  rewrite map_app, fold_left_app.
  apply run_value_acc; [| assumption | assumption |].
  - rewrite length_drop. lia.
  - assert (take k cs2 ≠ []) as Hne.
    { intros E. apply (f_equal length) in E. rewrite length_take in E. simpl in E. lia. }
    pose proof (run_value_pos _ Rp Hne). lia.
Qed.

Lemma alpha_trichotomy (cs1 cs2 : list ascii) :
  length cs1 = length cs2 →
  cs1 = cs2 ∨ alpha_lt cs1 cs2 = true ∨ alpha_lt cs2 cs1 = true.
Proof.
  revert cs2. induction cs1 as [|c1 cs1 IH]; intros [|c2 cs2] L; try discriminate L;
    [left; reflexivity|].
  simpl. destruct (Z.lt_trichotomy (ord c1) (ord c2)) as [H|[H|H]].
  - right; left. apply orb_true_iff. left. lia.
  - apply ord_inj in H as ->.
    destruct (IH cs2 ltac:(simpl in L; lia)) as [->|[H|H]];
      [left; reflexivity | right; left | right; right];
      rewrite H, Z.eqb_refl, orb_true_r; reflexivity.
  - right; right. apply orb_true_iff. left. lia.
Qed.

Lemma run_value_shortlex (s1 s2 : string) :
  uppercase (chars s1) = true → uppercase (chars s2) = true → shortlex_lt s1 s2 = true →
  fold_left step26 (map letter_ord (chars s1)) 0 < fold_left step26 (map letter_ord (chars s2)) 0.
Proof.
  intros R1 R2 H. unfold shortlex_lt in H. rewrite <- !length_chars in H.
  apply orb_true_iff in H as [H|H].
  - apply run_value_shorter; [apply Nat.ltb_lt, H | assumption..].
  - apply andb_true_iff in H as [L H]. apply Nat.eqb_eq in L.
    apply run_value_alpha; assumption.
Qed.

Lemma shortlex_trichotomy (s1 s2 : string) :
  s1 = s2 ∨ shortlex_lt s1 s2 = true ∨ shortlex_lt s2 s1 = true.
Proof.
  unfold shortlex_lt. rewrite <- !length_chars.
  destruct (Nat.lt_trichotomy (length (chars s1)) (length (chars s2))) as [H|[H|H]].
  - right; left. apply orb_true_iff. left. apply Nat.ltb_lt, H.
  - destruct (alpha_trichotomy _ _ H) as [E|[E|E]].
    + left. apply chars_inj, E.
    + right; left. rewrite E, H, Nat.eqb_refl, orb_true_r. reflexivity.
    + right; right. rewrite E, H, Nat.eqb_refl, orb_true_r. reflexivity.
  - right; right. apply orb_true_iff. left. apply Nat.ltb_lt, H.
Qed.

Lemma col_index_run (s : string) :
  uppercase (chars s) = true → col_index s = Ok (fold_left step26 (map letter_ord (chars s)) 0 - 1).
Proof.
  intros R. rewrite (col_index_fold s (run_latin _ R)).
  unfold letter_digits. rewrite (run_digits _ R). reflexivity.
Qed.

End LetterRuns.

(** C5. On runs of uppercase letters, [col_index] is strictly increasing for
    the order "shorter first, then alphabetical" (A, B, .., Z, AA, AB, ..),
    and it is injective. *)
Theorem col_index_order (s1 s2 : string) :
  letter_run s1 = true → letter_run s2 = true →
  ∃ i1 i2, col_index s1 = Ok i1 ∧ col_index s2 = Ok i2
           ∧ (shortlex_lt s1 s2 = true → i1 < i2)
           ∧ (i1 = i2 → s1 = s2).
Proof.
  intros R1 R2. rewrite (col_index_run s1 R1), (col_index_run s2 R2).
  eexists _, _. split; [reflexivity|]. split; [reflexivity|]. split.
  - intros H. pose proof (run_value_shortlex s1 s2 R1 R2 H). lia.
  - intros E. destruct (shortlex_trichotomy s1 s2) as [H|[H|H]]; [exact H | |].
    + pose proof (run_value_shortlex s1 s2 R1 R2 H). lia.
    + pose proof (run_value_shortlex s2 s1 R2 R1 H). lia.
Qed.

Lemma col_index_order_witness :
  letter_run "Z" = true ∧ letter_run "AA" = true ∧ shortlex_lt "Z" "AA" = true
  ∧ ∃ i1 i2, col_index "Z" = Ok i1 ∧ col_index "AA" = Ok i2
             ∧ (shortlex_lt "Z" "AA" = true → i1 < i2)
             ∧ (i1 = i2 → "Z"%string = "AA"%string).
Proof.
  split; [reflexivity|]. split; [reflexivity|]. split; [reflexivity|].
  apply col_index_order; reflexivity.
Defined.

(** ** The shared-string pool *)

Lemma append_loop {A B : Type} (g : A → B) (xs : list A) (values : list B) :
  fold_left (λ values x, values ++ [g x]) xs values = values ++ map g xs.
Proof.
  revert values. induction xs as [|x xs IH]; intros values; simpl.
  - rewrite app_nil_r. reflexivity.
  - rewrite IH, <- app_assoc. reflexivity.
Qed.

Lemma append_empty_r (s : string) : String.append s "" = s.
Proof.
  induction s as [|c s IH]; [reflexivity|].
  change (String c (String.append s "") = String c s). rewrite IH. reflexivity.
Qed.

(** Joining with the empty separator is plain concatenation. *)
Lemma join_empty (parts : list string) :
  String.concat "" parts = concat_strings parts.
Proof.
  induction parts as [|x [|y parts] IH]; [reflexivity | |].
  - simpl. rewrite append_empty_r. reflexivity.
  - change (String.concat "" (x :: y :: parts))
      with (String.append x (String.append "" (String.concat "" (y :: parts)))).
    rewrite IH. reflexivity.
Qed.

Lemma read_shared_strings_Ok (zf : gmap string member) (root : element) :
  zf !! "xl/sharedStrings.xml"%string = Some (WellFormed root) →
  read_shared_strings zf
  = Ok (map (λ si, concat_strings (map run_text (findall_descendants "t" si)))
            (findall "si" root)).
Proof.
  intros H. unfold read_shared_strings. rewrite H. simpl. f_equal.
  rewrite (append_loop
             (λ si, String.concat "" (map (λ node, default ""%string (text node))
                                          (findall_descendants "t" si)))).
  simpl. apply map_ext. intros si. apply join_empty.
Qed.

(** C6. Without a shared-strings member the pool is empty. With one, the pool
    has one string per pool entry, in document order: the i-th string is the
    texts of the text runs inside the i-th entry put one after the other, in
    document order; an entry without text runs gives the empty string at its
    position. *)
Theorem read_shared_strings_pool (zf : gmap string member) :
  (zf !! "xl/sharedStrings.xml"%string = None → read_shared_strings zf = Ok [])
  ∧ (∀ root, zf !! "xl/sharedStrings.xml"%string = Some (WellFormed root) →
       ∃ pool, read_shared_strings zf = Ok pool
         ∧ length pool = length (findall "si" root)
         ∧ (∀ (i : nat) si, findall "si" root !! i = Some si →
              pool !! i
              = Some (concat_strings (map run_text (findall_descendants "t" si)))
              ∧ (findall_descendants "t" si = [] → pool !! i = Some ""%string))).
Proof.
  split.
  - intros H. unfold read_shared_strings. rewrite H. reflexivity.
  - intros root H. eexists. split; [apply (read_shared_strings_Ok zf root H)|].
    split; [apply length_map|].
    intros i si Hi.
    assert (map (λ si, concat_strings (map run_text (findall_descendants "t" si)))
                (findall "si" root) !! i
            = Some (concat_strings (map run_text (findall_descendants "t" si)))) as E.
    { rewrite list_lookup_fmap, Hi. reflexivity. }
    split; [exact E|]. intros Hnil. rewrite E, Hnil. reflexivity.
Qed.

Lemma read_shared_strings_pool_witness :
  workbook example_cells !! "xl/sharedStrings.xml"%string = Some (WellFormed example_strings)
  ∧ ∃ pool, read_shared_strings (workbook example_cells) = Ok pool
      ∧ length pool = length (findall "si" example_strings)
      ∧ (∀ (i : nat) si, findall "si" example_strings !! i = Some si →
           pool !! i
           = Some (concat_strings (map run_text (findall_descendants "t" si)))
           ∧ (findall_descendants "t" si = [] → pool !! i = Some ""%string)).
Proof.
  assert (workbook example_cells !! "xl/sharedStrings.xml"%string
          = Some (WellFormed example_strings)) as H by (vm_compute; reflexivity).
  split; [exact H|].
  exact (proj2 (read_shared_strings_pool (workbook example_cells)) example_strings H).
Defined.

Example read_shared_strings_example :
  read_shared_strings (workbook example_cells)
  = Ok ["Title"; "Q1"; ""; "Course Name"]%string
  ∧ read_shared_strings ∅ = Ok [].
Proof. split; vm_compute; reflexivity. Qed.

(** ** Cells and rows *)

Lemma read_cell_column (shared_strings : list string) (m : gmap Z string)
    (cell : element) :
  read_cell shared_strings m cell
  = (idx ← cell_column cell;
     match find "v" cell with
     | None => Ok (<[idx := ""%string]> m)
     | Some raw =>
         if decide (attrib cell !! "t"%string = Some "s"%string) then
           i ← py_int (text raw);
           s ← list_getitem shared_strings i;
           Ok (<[idx := s]> m)
         else Ok (<[idx := default ""%string (text raw)]> m)
     end).
Proof.
  unfold read_cell, cell_column.
  destruct (dict_getitem (attrib cell) "r") as [r|e]; reflexivity.
Qed.

Lemma read_cell_Ok_inv (shared_strings : list string) (m m' : gmap Z string)
    (cell : element) :
  read_cell shared_strings m cell = Ok m' →
  ∃ idx v, cell_column cell = Ok idx ∧ m' = <[idx := v]> m.
Proof.
  rewrite read_cell_column. intros H.
  apply bind_Ok_inv in H as (idx & Hidx & H). exists idx.
  destruct (find "v" cell) as [raw|].
  - destruct (decide (attrib cell !! "t"%string = Some "s"%string)).
    + apply bind_Ok_inv in H as (i & _ & H). apply bind_Ok_inv in H as (s & _ & H).
      injection H as <-. eauto.
    + injection H as <-. eauto.
  - injection H as <-. eauto.
Qed.

(** The cells of a row leave alone the columns none of them is filed under. *)
Lemma read_cells_other (shared_strings : list string) (cells : list element)
    (m m' : gmap Z string) (k : Z) :
  for_each (read_cell shared_strings) m cells = Ok m' →
  Forall (λ c, cell_column c ≠ Ok k) cells →
  m' !! k = m !! k.
Proof.
  revert m. induction cells as [|c cells IH]; intros m H Hk.
  - injection H as <-. reflexivity.
  - simpl in H. apply bind_Ok_inv in H as (m1 & H1 & H).
    apply Forall_cons in Hk as [Hc Hk].
    rewrite (IH m1 H Hk).
    apply read_cell_Ok_inv in H1 as (idx & v & Hidx & ->).
    apply lookup_insert_ne. congruence.
Qed.

Lemma read_row_Ok_inv (shared_strings : list string) (rows out : list (gmap Z string))
    (row : element) :
  read_row shared_strings rows row = Ok out →
  ∃ m, for_each (read_cell shared_strings) ∅ (findall "c" row) = Ok m
       ∧ out = rows ++ [m].
Proof.
  unfold read_row. intros H. apply bind_Ok_inv in H as (m & Hm & H).
  injection H as <-. eauto.
Qed.

(** The reader returns one mapping per row element, in document order. *)
Lemma read_rows_Ok_inv (shared_strings : list string) (row_elements : list element)
    (rows out : list (gmap Z string)) :
  for_each (read_row shared_strings) rows row_elements = Ok out →
  ∃ ms, out = rows ++ ms
        ∧ Forall2 (λ row m, for_each (read_cell shared_strings) ∅ (findall "c" row) = Ok m)
                  row_elements ms.
Proof.
  revert rows. induction row_elements as [|row rest IH]; intros rows H.
  - injection H as <-. exists []. rewrite app_nil_r. split; [reflexivity | constructor].
  - simpl in H. apply bind_Ok_inv in H as (rows1 & H1 & H).
    apply read_row_Ok_inv in H1 as (m & Hm & ->).
    apply IH in H as (ms & -> & Hms).
    exists (m :: ms). rewrite <- app_assoc. split; [reflexivity | constructor; assumption].
Qed.

(** What [read_sheet_rows] runs once the pool is read and the sheet has rows. *)
Lemma read_sheet_rows_loop (zf : gmap string member) (shared_strings : list string)
    (row : element) :
  read_shared_strings zf = Ok shared_strings → row ∈ sheet_rows zf →
  read_sheet_rows zf = for_each (read_row shared_strings) [] (sheet_rows zf).
Proof.
  intros Hs Hrow. unfold read_sheet_rows, sheet_rows in *. rewrite Hs, bind_Ok.
  unfold dict_getitem.
  destruct (zf !! "xl/worksheets/sheet1.xml"%string) as [[sheet_xml|]|];
    try (inversion Hrow; fail).
  simpl. destruct (find "sheetData" sheet_xml) as [sd|]; [reflexivity | inversion Hrow].
Qed.

Lemma read_sheet_rows_Ok_inv (zf : gmap string member) (rows : list (gmap Z string)) :
  read_sheet_rows zf = Ok rows →
  ∃ shared_strings,
    read_shared_strings zf = Ok shared_strings
    ∧ Forall2 (λ row m, for_each (read_cell shared_strings) ∅ (findall "c" row) = Ok m)
              (sheet_rows zf) rows.
Proof.
  unfold read_sheet_rows, sheet_rows. intros H.
  apply bind_Ok_inv in H as (ss & Hss & H). exists ss. split; [exact Hss|].
  apply bind_Ok_inv in H as (m & Hm & H). unfold dict_getitem in Hm.
  destruct (zf !! "xl/worksheets/sheet1.xml"%string) as [mem|]; [|discriminate].
  injection Hm as ->. apply bind_Ok_inv in H as (sheet_xml & Hx & H).
  destruct m as [root|]; [|discriminate]. injection Hx as ->.
  destruct (find "sheetData" sheet_xml) as [sd|]; [|discriminate].
  apply read_rows_Ok_inv in H as (ms & -> & Hms). exact Hms.
Qed.

Lemma list_getitem_nonneg {A : Type} (l : list A) (i : Z) :
  0 ≤ i < Z.of_nat (length l) →
  ∃ x, l !! Z.to_nat i = Some x ∧ list_getitem l i = Ok x.
Proof.
  intros H. unfold list_getitem.
  replace (i <? 0) with false by (symmetry; apply Z.ltb_ge; lia).
  replace ((0 <=? i) && (i <? Z.of_nat (length l))) with true
    by (symmetry; apply andb_true_iff; split; [apply Z.leb_le | apply Z.ltb_lt]; lia).
  destruct (lookup_lt_is_Some_2 l (Z.to_nat i) ltac:(lia)) as [x Hx].
  exists x. rewrite Hx. auto.
Qed.

Lemma list_getitem_negative {A : Type} (l : list A) (i : Z) :
  - Z.of_nat (length l) ≤ i < 0 →
  ∃ x, l !! Z.to_nat (Z.of_nat (length l) + i) = Some x ∧ list_getitem l i = Ok x.
Proof.
  intros H. unfold list_getitem.
  replace (i <? 0) with true by (symmetry; apply Z.ltb_lt; lia).
  replace ((0 <=? i + Z.of_nat (length l)) && (i + Z.of_nat (length l) <? Z.of_nat (length l)))
    with true
    by (symmetry; apply andb_true_iff; split; [apply Z.leb_le | apply Z.ltb_lt]; lia).
  rewrite (Z.add_comm i).
  destruct (lookup_lt_is_Some_2 l (Z.to_nat (Z.of_nat (length l) + i)) ltac:(lia)) as [x Hx].
  exists x. rewrite Hx. auto.
Qed.

Lemma list_getitem_beyond {A : Type} (l : list A) (i : Z) :
  Z.of_nat (length l) ≤ i → list_getitem l i = Raise IndexError.
Proof.
  intros H. unfold list_getitem.
  replace (i <? 0) with false by (symmetry; apply Z.ltb_ge; lia).
  replace ((0 <=? i) && (i <? Z.of_nat (length l))) with false; [reflexivity|].
  symmetry. apply andb_false_iff. right. apply Z.ltb_ge. lia.
Qed.

(** A cell of shared-string type with a value node, once its index is parsed. *)
Lemma read_cell_shared (shared_strings : list string) (m : gmap Z string)
    (cell raw : element) (idx i : Z) :
  cell_column cell = Ok idx → find "v" cell = Some raw →
  attrib cell !! "t"%string = Some "s"%string → py_int (text raw) = Ok i →
  read_cell shared_strings m cell
  = (s ← list_getitem shared_strings i; Ok (<[idx := s]> m)).
Proof.
  intros Hc Hv Ht Hi. rewrite read_cell_column, Hc, bind_Ok, Hv.
  destruct (decide (attrib cell !! "t"%string = Some "s"%string)); [|contradiction].
  rewrite Hi. reflexivity.
Qed.

(** C7. A cell that is present in a row without a value node is recorded as
    the empty string under its column index: the reader makes this entry
    whatever the mapping held, and the mapping returned for the row has it
    unless a later cell of the same row is filed under the same column. A
    column under which no cell of the row is filed has no entry at all in
    the mapping returned, so the two cases are told apart. *)
Theorem empty_cell_recorded (zf : gmap string member) (i : nat)
    (row cell : element) (pre post : list element) (idx : Z) :
  sheet_rows zf !! i = Some row →
  findall "c" row = pre ++ cell :: post →
  find "v" cell = None →
  cell_column cell = Ok idx →
  (∀ shared_strings m, read_cell shared_strings m cell = Ok (<[idx := ""%string]> m))
  ∧ (∀ rows, read_sheet_rows zf = Ok rows →
       ∃ m : gmap Z string, rows !! i = Some m
         ∧ (Forall (λ c, cell_column c ≠ Ok idx) post → m !! idx = Some ""%string)
         ∧ (∀ k, Forall (λ c, cell_column c ≠ Ok k) (findall "c" row) → m !! k = None)).
Proof.
  intros Hrow Hcells Hv Hidx.
  assert (∀ ss m, read_cell ss m cell = Ok (<[idx := ""%string]> m)) as Hcell.
  { intros ss m. rewrite read_cell_column, Hidx, bind_Ok, Hv. reflexivity. }
  split; [exact Hcell|].
  intros rows H. apply read_sheet_rows_Ok_inv in H as (ss & _ & H).
  destruct (Forall2_lookup_l _ _ _ _ _ H Hrow) as (m & Hm & Hread).
  exists m. split; [exact Hm|]. split.
  - intros Hpost. rewrite Hcells, for_each_app in Hread.
    apply bind_Ok_inv in Hread as (m0 & _ & Hread).
    simpl in Hread. rewrite Hcell, bind_Ok in Hread.
    rewrite (read_cells_other ss post _ m idx Hread Hpost). apply lookup_insert_eq.
  - intros k Hk. rewrite (read_cells_other ss _ ∅ m k Hread Hk). apply lookup_empty.
Qed.

Example read_sheet_rows_example :
  read_sheet_rows (workbook example_cells) = Ok example_rows.
Proof. vm_compute. reflexivity. Qed.

Lemma empty_cell_recorded_witness :
  sheet_rows (workbook example_cells) !! 1%nat = Some example_row
  ∧ find "v" (cell "B2" None None) = None
  ∧ cell_column (cell "B2" None None) = Ok 1
  ∧ ∃ m : gmap Z string,
      example_rows !! 1%nat = Some m ∧ m !! 1 = Some ""%string ∧ m !! 3 = None.
Proof.
  assert (sheet_rows (workbook example_cells) !! 1%nat = Some example_row) as Hrow
    by (vm_compute; reflexivity).
  assert (cell_column (cell "B2" None None) = Ok 1) as Hidx by (vm_compute; reflexivity).
  split; [exact Hrow|]. split; [reflexivity|]. split; [exact Hidx|].
  destruct (empty_cell_recorded (workbook example_cells) 1 example_row
              (cell "B2" None None)
              [cell "A2" (Some "s"%string) (Some "1"%string)]
              [cell "C2" (Some "s"%string) (Some "3"%string);
               cell "E2" None (Some "4.5"%string)] 1
              Hrow eq_refl eq_refl Hidx)
    as [_ H].
  destruct (H example_rows ltac:(vm_compute; reflexivity)) as (m & Hm & H1 & H3).
  exists m. split; [exact Hm|].
  split; [apply H1 | apply H3]; repeat constructor; vm_compute; discriminate.
Defined.

(** C8. A cell of shared-string type with a value node is resolved by
    position in the pool: an index from 0 below the pool size gives the pool
    entry at that position; an index at or beyond the pool size raises
    [IndexError] at the cell, the reader returns no rows, and when nothing
    failed before the cell the reader fails with this very [IndexError]. No
    value is put in its place. *)
Theorem shared_string_lookup (zf : gmap string member) (shared_strings : list string)
    (row cell raw : element) (i : Z) :
  read_shared_strings zf = Ok shared_strings →
  row ∈ sheet_rows zf →
  cell ∈ findall "c" row →
  attrib cell !! "t"%string = Some "s"%string →
  find "v" cell = Some raw →
  py_int (text raw) = Ok i →
  (0 ≤ i < Z.of_nat (length shared_strings) →
   ∀ m idx, cell_column cell = Ok idx →
     ∃ s, shared_strings !! Z.to_nat i = Some s
          ∧ read_cell shared_strings m cell = Ok (<[idx := s]> m))
  ∧ (Z.of_nat (length shared_strings) ≤ i →
     (∀ m idx, cell_column cell = Ok idx →
        read_cell shared_strings m cell = Raise IndexError)
     ∧ (∃ e, read_sheet_rows zf = Raise e)
     ∧ (∀ rows_pre rows_post cells_pre cells_post rows m idx,
          sheet_rows zf = rows_pre ++ row :: rows_post →
          findall "c" row = cells_pre ++ cell :: cells_post →
          for_each (read_row shared_strings) [] rows_pre = Ok rows →
          for_each (read_cell shared_strings) ∅ cells_pre = Ok m →
          cell_column cell = Ok idx →
          read_sheet_rows zf = Raise IndexError)).
Proof.
  intros Hss Hrow Hcell Ht Hv Hi. split.
  - intros Hr m idx Hidx.
    destruct (list_getitem_nonneg shared_strings i Hr) as (s & Hs & Hg).
    exists s. split; [exact Hs|].
    rewrite (read_cell_shared _ m cell raw idx i Hidx Hv Ht Hi), Hg. reflexivity.
  - intros Hr.
    assert (∀ m idx, cell_column cell = Ok idx →
                     read_cell shared_strings m cell = Raise IndexError) as Hraise.
    { intros m idx Hidx.
      rewrite (read_cell_shared _ m cell raw idx i Hidx Hv Ht Hi),
              (list_getitem_beyond shared_strings i Hr).
      reflexivity. }
    split; [exact Hraise|]. rewrite (read_sheet_rows_loop zf shared_strings row Hss Hrow).
    split.
    + apply (for_each_raises _ row _ Hrow). intros rows. unfold read_row.
      destruct (for_each_raises (read_cell shared_strings) cell _ Hcell) with (s := (∅ : gmap Z string))
        as [e ->]; [|eauto].
      intros m. destruct (cell_column cell) as [idx|e] eqn:Hidx.
      * rewrite (Hraise m idx eq_refl). eauto.
      * rewrite read_cell_column, Hidx. eauto.
    + intros rows_pre rows_post cells_pre cells_post rows m idx -> Hcells Hrows Hm Hidx.
      apply (for_each_stops _ _ rows _ _ _ _ Hrows).
      unfold read_row. rewrite Hcells.
      rewrite (for_each_stops _ _ m _ _ _ IndexError Hm (Hraise m idx Hidx)).
      reflexivity.
Qed.

Lemma shared_string_lookup_witness :
  read_shared_strings (workbook [cell_beyond]) = Ok example_pool
  ∧ py_int (text (el "v" [] (Some "4"%string) [])) = Ok 4
  ∧ Z.of_nat (length example_pool) ≤ 4
  ∧ read_cell example_pool ∅ cell_beyond = Raise IndexError
  ∧ read_sheet_rows (workbook [cell_beyond]) = Raise IndexError.
Proof.
  assert (read_shared_strings (workbook [cell_beyond]) = Ok example_pool) as Hss
    by (vm_compute; reflexivity).
  assert (sheet_rows (workbook [cell_beyond]) = [title_row] ++ el "row" [] None [cell_beyond] :: [])
    as Hrows by (vm_compute; reflexivity).
  assert (el "row" [] None [cell_beyond] ∈ sheet_rows (workbook [cell_beyond])) as Hrow
    by (rewrite Hrows; repeat constructor).
  assert (findall "c" (el "row" [] None [cell_beyond]) = [] ++ cell_beyond :: []) as Hcells
    by (vm_compute; reflexivity).
  assert (cell_beyond ∈ findall "c" (el "row" [] None [cell_beyond])) as Hcell
    by (rewrite Hcells; repeat constructor).
  split; [exact Hss|]. split; [reflexivity|]. split; [simpl; lia|].
  destruct (shared_string_lookup (workbook [cell_beyond]) example_pool
              (el "row" [] None [cell_beyond]) cell_beyond
              (el "v" [] (Some "4"%string) []) 4
              Hss Hrow Hcell eq_refl eq_refl eq_refl) as [_ H].
  destruct (H ltac:(simpl; lia)) as (Hc & _ & Hr).
  split.
  - apply (Hc ∅ 0). vm_compute. reflexivity.
  - apply (Hr [title_row] [] [] [] [{[ 0 := "Title"%string ]}] ∅ 0 Hrows Hcells);
      vm_compute; reflexivity.
Defined.

(** C10. A cell of shared-string type whose parsed index [i] is negative and
    not below minus the pool size does not fail: it is resolved to the pool
    entry at position pool size + [i], counted from the end of the pool. *)
Theorem negative_index_from_end (shared_strings : list string) (m : gmap Z string)
    (cell raw : element) (idx i : Z) :
  cell_column cell = Ok idx →
  attrib cell !! "t"%string = Some "s"%string →
  find "v" cell = Some raw →
  py_int (text raw) = Ok i →
  - Z.of_nat (length shared_strings) ≤ i < 0 →
  ∃ s, shared_strings !! Z.to_nat (Z.of_nat (length shared_strings) + i) = Some s
       ∧ read_cell shared_strings m cell = Ok (<[idx := s]> m).
Proof.
  intros Hidx Ht Hv Hi Hr.
  destruct (list_getitem_negative shared_strings i Hr) as (s & Hs & Hg).
  exists s. split; [exact Hs|].
  rewrite (read_cell_shared _ m cell raw idx i Hidx Hv Ht Hi), Hg. reflexivity.
Qed.

Lemma negative_index_from_end_witness :
  py_int (Some "-1"%string) = Ok (-1)
  ∧ - Z.of_nat (length example_pool) ≤ -1 < 0
  ∧ ∃ s, example_pool !! Z.to_nat (Z.of_nat (length example_pool) + -1) = Some s
         ∧ read_cell example_pool ∅ cell_from_end = Ok (<[0 := s]> ∅).
Proof.
  split; [reflexivity|]. split; [simpl; lia|].
  apply (negative_index_from_end example_pool ∅ cell_from_end
           (el "v" [] (Some "-1"%string) []) 0 (-1)).
  - vm_compute. reflexivity.
  - reflexivity.
  - reflexivity.
  - reflexivity.
  - simpl. lia.
Defined.

Example negative_index_example :
  read_sheet_rows (workbook [cell_from_end])
  = Ok [{[ 0 := "Title"%string ]}; {[ 0 := "Course Name"%string ]}].
Proof. vm_compute. reflexivity. Qed.

(** ** References without letters *)

Lemma col_index_no_letters (r : string) : has_letter r = false → col_index r = Ok (-1).
Proof.
  unfold has_letter, col_index. fold (chars r). intros H.
  assert (List.filter isalpha (chars r) = []) as ->; [|reflexivity].
  induction (chars r) as [|c cs IH]; [reflexivity|].
  simpl in H. apply orb_false_iff in H as [Hc Hcs].
  simpl. rewrite Hc. apply IH, Hcs.
Qed.

(** C9, as amended. A cell whose reference attribute has no letters is not
    refused: [col_index] returns -1 for it, and the reader files the text of
    the cell under the column index -1 of the row mapping, as it does for any
    other cell, and goes on. *)
Theorem reference_without_letters (shared_strings : list string) (m : gmap Z string)
    (cell : element) (r : string) :
  attrib cell !! "r"%string = Some r →
  has_letter r = false →
  col_index r = Ok (-1)
  ∧ (find "v" cell = None →
     read_cell shared_strings m cell = Ok (<[-1 := ""%string]> m))
  ∧ (∀ raw, find "v" cell = Some raw →
       attrib cell !! "t"%string ≠ Some "s"%string →
       read_cell shared_strings m cell = Ok (<[-1 := default ""%string (text raw)]> m))
  ∧ (∀ raw i s, find "v" cell = Some raw →
       attrib cell !! "t"%string = Some "s"%string →
       py_int (text raw) = Ok i → list_getitem shared_strings i = Ok s →
       read_cell shared_strings m cell = Ok (<[-1 := s]> m)).
Proof.
  intros Hr Hl. pose proof (col_index_no_letters r Hl) as Hc.
  assert (cell_column cell = Ok (-1)) as Hidx.
  { unfold cell_column, dict_getitem. rewrite Hr. exact Hc. }
  split; [exact Hc|]. split; [|split].
  - intros Hv. rewrite read_cell_column, Hidx, bind_Ok, Hv. reflexivity.
  - intros raw Hv Ht. rewrite read_cell_column, Hidx, bind_Ok, Hv.
    destruct (decide (attrib cell !! "t"%string = Some "s"%string)); [contradiction|].
    reflexivity.
  - intros raw i s Hv Ht Hi Hs.
    rewrite (read_cell_shared _ m cell raw (-1) i Hidx Hv Ht Hi), Hs. reflexivity.
Qed.

Lemma reference_without_letters_witness :
  attrib cell_no_letters !! "r"%string = Some "12"%string
  ∧ has_letter "12" = false
  ∧ col_index "12" = Ok (-1)
  ∧ read_cell example_pool ∅ cell_no_letters = Ok (<[-1 := "x"%string]> ∅).
Proof.
  assert (attrib cell_no_letters !! "r"%string = Some "12"%string) as Hr
    by (vm_compute; reflexivity).
  split; [exact Hr|]. split; [reflexivity|].
  destruct (reference_without_letters example_pool ∅ cell_no_letters "12" Hr eq_refl)
    as (Hc & _ & Hv & _).
  split; [exact Hc|].
  apply (Hv (el "v" [] (Some "x"%string) [])); [reflexivity|].
  vm_compute. discriminate.
Defined.

(** C9, the claim as written fails: the reference "12" has no letters, and
    the reader returns the rows, the cell filed under column -1. *)
Lemma reference_without_letters_counterexample :
  has_letter "12" = false
  ∧ cell_no_letters ∈ findall "c" (el "row" [] None [cell_no_letters])
  ∧ attrib cell_no_letters !! "r"%string = Some "12"%string
  ∧ read_sheet_rows (workbook [cell_no_letters])
    = Ok [{[ 0 := "Title"%string ]}; {[ -1 := "x"%string ]}].
Proof.
  split; [reflexivity|]. split; [|split; vm_compute; reflexivity].
  assert (findall "c" (el "row" [] None [cell_no_letters]) = [cell_no_letters]) as ->
    by (vm_compute; reflexivity).
  constructor.
Qed.

(** * Further properties *)

(** ** Splitting at the separator *)

Lemma starts_with_app (pre cs : list ascii) :
  starts_with pre cs = true → ∃ rest, cs = pre ++ rest.
Proof.
  revert cs. induction pre as [|p pre IH]; intros cs H; [exists cs; reflexivity|].
  destruct cs as [|c cs]; [discriminate|].
  simpl in H. apply andb_true_iff in H as [Hc H].
  apply Ascii.eqb_eq in Hc as ->. destruct (IH cs H) as [rest ->]. exists rest. reflexivity.
Qed.

Lemma contains_false (sub cs : list ascii) :
  contains sub cs = false ↔ ∀ i : nat, starts_with sub (drop i cs) = false.
Proof.
  induction cs as [|c cs IH].
  - simpl. rewrite orb_false_r. split.
    + intros H i. rewrite drop_nil. exact H.
    + intros H. apply (H 0%nat).
  - cbn [contains]. rewrite orb_false_iff, IH. split.
    + intros [H0 H] [|i]; [exact H0 | apply H].
    + intros H. split; [apply (H 0%nat) | intros i; apply (H (S i))].
Qed.

Lemma split_go_skip (sep t rest cur : list ascii) :
  split_go sep (length t) cur (t ++ rest) = split_go sep 0 cur rest.
Proof. induction t as [|c t IH]; [reflexivity | exact IH]. Qed.

Lemma split_go_match (sep rest cur : list ascii) :
  sep ≠ [] →
  split_go sep 0 cur (sep ++ rest) = rev cur :: split_go sep 0 [] rest.
Proof.
  intros Hsep. destruct sep as [|s0 sep]; [congruence|].
  assert (starts_with (s0 :: sep) ((s0 :: sep) ++ rest) = true) as H.
  { clear. induction (s0 :: sep) as [|p pre IH]; [reflexivity|].
    simpl. rewrite Ascii.eqb_refl. exact IH. }
  change (split_go (s0 :: sep) 0 cur ((s0 :: sep) ++ rest))
    with (if starts_with (s0 :: sep) ((s0 :: sep) ++ rest)
          then rev cur :: split_go (s0 :: sep) (length (s0 :: sep) - 1) [] (sep ++ rest)
          else split_go (s0 :: sep) 0 (s0 :: cur) (sep ++ rest)).
  rewrite H. f_equal.
  replace (length (s0 :: sep) - 1)%nat with (length sep) by (simpl; lia).
  apply split_go_skip.
Qed.

Lemma split_go_no_match (sep cs cur : list ascii) (c : ascii) :
  starts_with sep (c :: cs) = false →
  split_go sep 0 cur (c :: cs) = split_go sep 0 (c :: cur) cs.
Proof. intros H. cbn [split_go]. rewrite H. reflexivity. Qed.

Lemma split_go_nonempty (sep cur cs : list ascii) (skip : nat) :
  split_go sep skip cur cs ≠ [].
Proof.
  revert skip cur. induction cs as [|c cs IH]; intros skip cur; [discriminate|].
  destruct skip as [|k]; cbn [split_go]; [|apply IH].
  destruct (starts_with sep (c :: cs)); [discriminate | apply IH].
Qed.

Lemma last_cons_nonempty {A : Type} (x d : A) (l : list A) :
  l ≠ [] → List.last (x :: l) d = List.last l d.
Proof. destruct l; [congruence | reflexivity]. Qed.

(** What the scan keeps: no separator starts inside the piece being built,
    and the last piece ends the text, right after a separator if one was
    found. *)
Lemma split_go_last (sep : list ascii) (n : nat) :
  sep ≠ [] →
  ∀ cs cur, (length cs ≤ n)%nat →
    (∀ i : nat, (i < length cur)%nat → starts_with sep (drop i (rev cur ++ cs)) = false) →
    let piece := List.last (split_go sep 0 cur cs) [] in
    contains sep piece = false
    ∧ (rev cur ++ cs = piece ∨ ∃ pre, rev cur ++ cs = pre ++ sep ++ piece).
Proof.
  intros Hsep. induction n as [|n IH]; intros cs cur Hn Hcur piece.
  - destruct cs; [|simpl in Hn; lia]. subst piece. simpl. rewrite app_nil_r in *.
    split; [|left; reflexivity].
    apply contains_false. intros i.
    destruct (decide (i < length cur)%nat) as [Hi|Hi]; [apply Hcur, Hi|].
    rewrite drop_ge by (rewrite length_rev; lia).
    destruct sep; [congruence | reflexivity].
  - destruct cs as [|c cs].
    { apply (IH [] cur); [simpl; lia | exact Hcur]. }
    destruct (starts_with sep (c :: cs)) eqn:Hm.
    + destruct (starts_with_app _ _ Hm) as [rest Hrest].
      subst piece. rewrite Hrest, (split_go_match sep rest cur Hsep).
      rewrite last_cons_nonempty by apply split_go_nonempty.
      destruct (IH rest []) as [Hc Hs].
      { apply (f_equal length) in Hrest. rewrite length_app in Hrest.
        destruct sep; [congruence|]. simpl in *. lia. }
      { intros i Hi. simpl in Hi. lia. }
      split; [exact Hc|]. right. simpl in Hs.
      set (piece := List.last (split_go sep 0 [] rest) []) in *.
      clearbody piece. destruct Hs as [Hs|[pre Hs]].
      * exists (rev cur). rewrite Hs. reflexivity.
      * exists (rev cur ++ sep ++ pre). rewrite Hs, <- !app_assoc. reflexivity.
    + subst piece. rewrite (split_go_no_match sep cs cur c Hm).
      assert (rev (c :: cur) ++ cs = rev cur ++ c :: cs) as E
        by (simpl; rewrite <- app_assoc; reflexivity).
      rewrite <- E. apply IH; [simpl in Hn; lia|].
      intros i Hi. rewrite E. simpl in Hi.
      destruct (decide (i < length cur)%nat) as [Hlt|Hge]; [apply Hcur, Hlt|].
      assert (i = length (rev cur)) as -> by (rewrite length_rev; lia).
      rewrite drop_app_length. exact Hm.
Qed.

Lemma normalize_course_name_Ok (label : string) :
  normalize_course_name label = Ok (course_name label).
Proof.
  unfold normalize_course_name, course_name, last_piece, str_split.
  pose proof (split_go_nonempty (chars " - ") [] (chars label) 0) as Hne.
  destruct (@exists_last _ (split_go (chars " - ") 0 [] (chars label)) Hne)
    as (init & piece & E).
  rewrite E, last_last.
  destruct (list_getitem_negative (init ++ [piece]) (-1)) as (x & Hx & ->).
  { rewrite length_app. simpl. lia. }
  replace (Z.to_nat (Z.of_nat (length (init ++ [piece])) + -1)) with (length init) in Hx
    by (rewrite length_app; simpl; lia).
  rewrite lookup_app_r, Nat.sub_diag in Hx by lia. injection Hx as <-. reflexivity.
Qed.

(** X1. [normalize_course_name] never raises, and the piece of the label it
    works on is the text after the last [" - "]: the piece holds no
    [" - "], and the label is the piece itself or ends with [" - "]
    followed by the piece. *)
Theorem normalize_takes_last_piece (label : string) :
  normalize_course_name label
  = Ok (string_of_list_ascii (sub_spaces false (str_strip (last_piece label))))
  ∧ contains (chars " - ") (last_piece label) = false
  ∧ (chars label = last_piece label
     ∨ ∃ pre, chars label = pre ++ chars " - " ++ last_piece label).
Proof.
  split; [apply normalize_course_name_Ok|].
  apply (split_go_last (chars " - ") (length (chars label)) ltac:(discriminate)
           (chars label) []); [lia|].
  intros i Hi. simpl in Hi. lia.
Qed.

(** ** The normalized name *)

Lemma drop_spaces_head (l : list ascii) :
  drop_spaces l = [] ∨ ∃ h t, drop_spaces l = h :: t ∧ isspace h = false.
Proof.
  induction l as [|c l IH]; [left; reflexivity|].
  simpl. destruct (isspace c) eqn:Hc; [exact IH | right; eauto].
Qed.

Lemma drop_spaces_suffix (l : list ascii) : ∃ pre, l = pre ++ drop_spaces l.
Proof.
  induction l as [|c l [pre IH]]; [exists []; reflexivity|].
  simpl. destruct (isspace c); [|exists []; reflexivity].
  exists (c :: pre). simpl. rewrite <- IH. reflexivity.
Qed.

(** A stripped text is empty, or begins and ends with a character that is
    not whitespace. *)
Lemma str_strip_ends (p : list ascii) :
  str_strip p = []
  ∨ ∃ h t u c, str_strip p = h :: t ∧ isspace h = false
               ∧ str_strip p = u ++ [c] ∧ isspace c = false.
Proof.
  unfold str_strip.
  destruct (drop_spaces_head (rev (drop_spaces p))) as [->|(c & r & Hr & Hc)];
    [left; reflexivity|].
  right. rewrite Hr.
  destruct (drop_spaces_suffix (rev (drop_spaces p))) as [pre Hpre].
  rewrite Hr in Hpre. apply (f_equal (@rev ascii)) in Hpre.
  rewrite rev_involutive, rev_app_distr in Hpre.
  destruct (rev (c :: r)) as [|h t] eqn:E.
  { apply (f_equal length) in E. rewrite length_rev in E. discriminate. }
  exists h, t, (rev r), c. split; [reflexivity|]. split; [|split; [|exact Hc]].
  - destruct (drop_spaces_head p) as [Hq|(h' & t' & Hq & Hh')]; rewrite Hq in Hpre.
    + discriminate.
    + simpl in Hpre. injection Hpre as -> _. exact Hh'.
  - rewrite <- E. reflexivity.
Qed.

Lemma sub_spaces_single (t : list ascii) (c : ascii) (b : bool) :
  isspace c = false → single_spaced b (sub_spaces b (t ++ [c])) = true.
Proof.
  intros Hc. revert b. induction t as [|x t IH]; intros b.
  - simpl. rewrite Hc. simpl. rewrite Hc. reflexivity.
  - simpl. destruct (isspace x) eqn:Hx.
    + destruct b; [apply IH|].
      cbn [single_spaced]. replace (isspace " ") with true by reflexivity.
      rewrite IH. reflexivity.
    + cbn [single_spaced]. rewrite Hx. apply IH.
Qed.

Lemma non_spaces_sub_spaces (t : list ascii) (b : bool) :
  non_spaces (sub_spaces b t) = non_spaces t.
Proof.
  unfold non_spaces. revert b. induction t as [|x t IH]; intros b; [reflexivity|].
  simpl. destruct (isspace x) eqn:Hx; simpl.
  - destruct b; [apply IH|]. simpl. replace (isspace " ") with true by reflexivity.
    simpl. apply IH.
  - rewrite Hx. simpl. f_equal. apply IH.
Qed.

Lemma non_spaces_drop_spaces (l : list ascii) :
  non_spaces (drop_spaces l) = non_spaces l.
Proof.
  unfold non_spaces. induction l as [|c l IH]; [reflexivity|].
  simpl. destruct (isspace c) eqn:Hc; simpl; [exact IH | rewrite Hc; reflexivity].
Qed.

Lemma non_spaces_rev (l : list ascii) : non_spaces (rev l) = rev (non_spaces l).
Proof.
  unfold non_spaces. induction l as [|c l IH]; [reflexivity|].
  simpl. rewrite List.filter_app, IH. simpl.
  destruct (isspace c); simpl; [rewrite app_nil_r|]; reflexivity.
Qed.

Lemma non_spaces_str_strip (l : list ascii) : non_spaces (str_strip l) = non_spaces l.
Proof.
  unfold str_strip.
  rewrite non_spaces_rev, non_spaces_drop_spaces, non_spaces_rev, rev_involutive.
  apply non_spaces_drop_spaces.
Qed.

(** X2. The name [normalize_course_name] returns has no whitespace but
    single spaces between other characters, none at either end, and it
    keeps the characters of the last piece of the label that are not
    whitespace, in their order. *)
Theorem normalize_whitespace (label : string) :
  ∃ name, normalize_course_name label = Ok name
          ∧ whitespace_normal (chars name) = true
          ∧ non_spaces (chars name) = non_spaces (last_piece label).
Proof.
  exists (course_name label). split; [apply normalize_course_name_Ok|].
  unfold course_name, chars. rewrite list_ascii_of_string_of_list_ascii.
  split; [|rewrite non_spaces_sub_spaces; apply non_spaces_str_strip].
  destruct (str_strip_ends (last_piece label)) as [->|(h & t & u & c & Eh & Hh & Ec & Hc)];
    [reflexivity|].
  assert (sub_spaces false (str_strip (last_piece label))
          = sub_spaces true (str_strip (last_piece label))) as ->.
  { rewrite Eh. simpl. rewrite Hh. reflexivity. }
  rewrite Ec. pose proof (sub_spaces_single u c true Hc) as H.
  destruct (sub_spaces true (u ++ [c])); [reflexivity | exact H].
Qed.

(** ** The core course columns *)

Lemma for_each_pure {A S : Type} (body : S → A → result S) (f : S → A → S)
    (xs : list A) (s : S) :
  (∀ s x, body s x = Ok (f s x)) → for_each body s xs = Ok (fold_left f xs s).
Proof.
  intros H. revert s. induction xs as [|x xs IH]; intros s; [reflexivity|].
  simpl. rewrite H, bind_Ok. apply IH.
Qed.

Lemma select_loop_lookup (f : string → option string) (l : list (Z * string))
    (acc : gmap Z string) (k : Z) :
  NoDup l.*1 →
  fold_left (λ (acc : gmap Z string) '(idx, label),
               match f label with
               | Some name => <[idx := name]> acc
               | None => acc
               end) l acc !! k
  = match (list_to_map l : gmap Z string) !! k with
    | Some label => match f label with Some name => Some name | None => acc !! k end
    | None => acc !! k
    end.
Proof.
  revert acc. induction l as [|[k0 v0] l IH]; intros acc Hnd; [reflexivity|].
  rewrite fmap_cons in Hnd. apply NoDup_cons in Hnd as [Hk0 Hnd]. simpl in Hk0.
  cbn [fold_left]. rewrite (IH _ Hnd). cbn [list_to_map foldr fst snd].
  destruct (decide (k0 = k)) as [->|Hne].
  - rewrite lookup_insert_eq, (not_elem_of_list_to_map_1 _ _ Hk0).
    destruct (f v0); [apply lookup_insert_eq | reflexivity].
  - rewrite lookup_insert_ne by exact Hne.
    destruct (list_to_map l !! k) as [label|].
    + destruct (f label); [reflexivity|].
      destruct (f v0); [apply lookup_insert_ne, Hne | reflexivity].
    + destruct (f v0); [apply lookup_insert_ne, Hne | reflexivity].
Qed.

(** X3. [extract_core_course_columns] keeps exactly the columns of the
    question row whose label, in lower case, contains both
    ["macc core course"] and ["- acc"], each with the normalized name of its
    label; it raises [ValueError] exactly when no label qualifies. *)
Theorem extract_core_course_columns_spec (question_row : gmap Z string) :
  ∃ columns : gmap Z string,
    (∀ idx, columns !! idx
            = (label ← question_row !! idx;
               if is_core_label label then Some (course_name label) else None))
    ∧ (columns = ∅ ↔
       ∀ idx label, question_row !! idx = Some label → is_core_label label = false)
    ∧ extract_core_course_columns question_row
      = if decide (columns = ∅) then Raise ValueError else Ok columns.
Proof.
  set (f := λ label, if is_core_label label then Some (course_name label) else None).
  set (step := λ (acc : gmap Z string) '(idx, label),
                 match f label with
                 | Some name => <[idx := name]> acc
                 | None => acc
                 end).
  exists (fold_left step (map_to_list question_row) ∅).
  assert (∀ idx, fold_left step (map_to_list question_row) ∅ !! idx
                 = question_row !! idx ≫= f) as Hlookup.
  { intros idx. unfold step.
    rewrite (select_loop_lookup f _ ∅ idx (NoDup_fst_map_to_list question_row)).
    rewrite list_to_map_to_list, lookup_empty.
    destruct (question_row !! idx) as [label|]; [|reflexivity].
    simpl. destruct (f label); reflexivity. }
  split; [exact Hlookup|]. split.
  - split.
    + intros E idx label Hl. pose proof (Hlookup idx) as H.
      rewrite E, lookup_empty, Hl in H. simpl in H. unfold f in H.
      destruct (is_core_label label); [discriminate | reflexivity].
    + intros H. apply map_eq. intros idx. rewrite Hlookup, lookup_empty.
      destruct (question_row !! idx) as [label|] eqn:Hl; [|reflexivity].
      simpl. unfold f. rewrite (H idx label Hl). reflexivity.
  - unfold extract_core_course_columns.
    rewrite (for_each_pure _ step); [reflexivity|].
    intros acc [idx label]. unfold step, f.
    destruct (is_core_label label); [|reflexivity].
    rewrite normalize_course_name_Ok. reflexivity.
Qed.

(** ** Rows as lists of entries *)

Lemma read_cell_entry (shared_strings : list string) (m : gmap Z string)
    (c : element) :
  read_cell shared_strings m c
  = (entry ← cell_entry shared_strings c; Ok (<[entry.1 := entry.2]> m)).
Proof.
  rewrite read_cell_column. unfold cell_entry.
  destruct (cell_column c) as [idx|e]; [|reflexivity]. rewrite !bind_Ok.
  destruct (find "v" c) as [raw|]; [|reflexivity].
  destruct (decide (attrib c !! "t"%string = Some "s"%string)); [|reflexivity].
  destruct (py_int (text raw)) as [i|e1]; [|reflexivity]. rewrite !bind_Ok.
  destruct (list_getitem shared_strings i) as [s|e2]; reflexivity.
Qed.

Lemma read_cells_iff (shared_strings : list string) (cells : list element)
    (m0 m : gmap Z string) :
  for_each (read_cell shared_strings) m0 cells = Ok m
  ↔ ∃ entries, Forall2 (λ c entry, cell_entry shared_strings c = Ok entry) cells entries
               ∧ m = fold_left (λ m entry, <[entry.1 := entry.2]> m) entries m0.
Proof.
  revert m0. induction cells as [|c cells IH]; intros m0.
  - simpl. split.
    + intros H. injection H as <-. exists []. split; [constructor | reflexivity].
    + intros (entries & H & ->). inversion H. reflexivity.
  - cbn [for_each]. rewrite read_cell_entry. split.
    + intros H. apply bind_Ok_inv in H as (m1 & H1 & H).
      apply bind_Ok_inv in H1 as (entry & He & H1). injection H1 as <-.
      apply IH in H as (entries & Hes & ->).
      exists (entry :: entries). split; [constructor; assumption | reflexivity].
    + intros (entries & H & ->). inversion H as [|? entry ? es He Hes]; subst.
      rewrite He, !bind_Ok. apply IH. exists es. split; [exact Hes | reflexivity].
Qed.

(** Filing the entries one after the other is the map of the entries read
    backwards: of two entries with one column the later one stays. *)
Lemma file_entries (entries : list (Z * string)) (m0 : gmap Z string) :
  fold_left (λ m entry, <[entry.1 := entry.2]> m) entries m0
  = list_to_map (reverse entries) ∪ m0.
Proof.
  revert m0. induction entries as [|[k v] entries IH]; intros m0.
  - simpl. rewrite (left_id_L ∅ (∪)). reflexivity.
  - cbn [fold_left fst snd]. rewrite IH, reverse_cons, list_to_map_app.
    cbn [list_to_map foldr fst snd]. rewrite insert_empty, <- (assoc_L (∪)).
    rewrite <- insert_union_singleton_l. reflexivity.
Qed.

Lemma read_row_Ok (shared_strings : list string) (rows : list (gmap Z string))
    (row : element) (m : gmap Z string) :
  for_each (read_cell shared_strings) ∅ (findall "c" row) = Ok m →
  read_row shared_strings rows row = Ok (rows ++ [m]).
Proof. intros H. unfold read_row. rewrite H. reflexivity. Qed.

Lemma read_rows_Ok (shared_strings : list string) (row_elements : list element)
    (ms rows : list (gmap Z string)) :
  Forall2 (λ row m, for_each (read_cell shared_strings) ∅ (findall "c" row) = Ok m)
          row_elements ms →
  for_each (read_row shared_strings) rows row_elements = Ok (rows ++ ms).
Proof.
  intros H. revert rows. induction H as [|row m els ms Hm _ IH]; intros rows.
  - rewrite app_nil_r. reflexivity.
  - cbn [for_each]. rewrite (read_row_Ok _ rows row m Hm), bind_Ok, IH, <- app_assoc.
    reflexivity.
Qed.

(** X4. [read_sheet_rows] returns rows exactly when the pool can be read, the
    worksheet member is there, is well formed and has a [sheetData] element,
    and every cell of every row can be read. It then returns one mapping per
    row element, in document order, and the mapping of a row holds for each
    column the text of the last cell of the row filed under it. *)
Theorem read_sheet_rows_iff (zf : gmap string member) (rows : list (gmap Z string)) :
  read_sheet_rows zf = Ok rows
  ↔ ∃ shared_strings sheet_xml sheet_data,
      read_shared_strings zf = Ok shared_strings
      ∧ zf !! "xl/worksheets/sheet1.xml"%string = Some (WellFormed sheet_xml)
      ∧ find "sheetData" sheet_xml = Some sheet_data
      ∧ Forall2 (λ row (m : gmap Z string),
                   ∃ entries,
                     Forall2 (λ c entry, cell_entry shared_strings c = Ok entry)
                             (findall "c" row) entries
                     ∧ m = list_to_map (reverse entries))
                (findall "row" sheet_data) rows.
Proof.
  assert (∀ ss row (m : gmap Z string),
            for_each (read_cell ss) ∅ (findall "c" row) = Ok m
            ↔ ∃ entries, Forall2 (λ c entry, cell_entry ss c = Ok entry)
                                 (findall "c" row) entries
                         ∧ m = list_to_map (reverse entries)) as Hrow.
  { intros ss row m. rewrite read_cells_iff.
    split; intros (entries & H & ->); exists entries; (split; [exact H|]).
    - rewrite file_entries, (right_id_L ∅ (∪)). reflexivity.
    - rewrite file_entries, (right_id_L ∅ (∪)). reflexivity. }
  split.
  - unfold read_sheet_rows. intros H.
    apply bind_Ok_inv in H as (ss & Hss & H).
    apply bind_Ok_inv in H as (m & Hm & H). unfold dict_getitem in Hm.
    destruct (zf !! "xl/worksheets/sheet1.xml"%string) as [mem|]; [|discriminate].
    injection Hm as ->. apply bind_Ok_inv in H as (sheet_xml & Hx & H).
    destruct m as [root|]; [|discriminate]. injection Hx as ->.
    destruct (find "sheetData" sheet_xml) as [sd|] eqn:Hsd; [|discriminate].
    exists ss, sheet_xml, sd. split; [exact Hss|]. split; [reflexivity|].
    split; [exact Hsd|].
    apply read_rows_Ok_inv in H as (ms & -> & Hms). simpl.
    eapply Forall2_impl; [exact Hms|]. intros row m0 H0. apply Hrow, H0.
  - intros (ss & sheet_xml & sd & Hss & Hm & Hsd & H).
    unfold read_sheet_rows, dict_getitem. rewrite Hss, bind_Ok, Hm, bind_Ok.
    simpl. rewrite Hsd.
    apply (read_rows_Ok ss _ rows []).
    eapply Forall2_impl; [exact H|]. intros row m0 H0. apply Hrow, H0.
Qed.

Lemma read_cells_Ok_all (shared_strings : list string) (cells : list element)
    (m0 : gmap Z string) :
  Forall (λ c, ∃ entry, cell_entry shared_strings c = Ok entry) cells →
  ∃ m, for_each (read_cell shared_strings) m0 cells = Ok m.
Proof.
  intros H. revert m0. induction H as [|c cells [entry He] _ IH]; intros m0.
  - eauto.
  - cbn [for_each]. rewrite read_cell_entry, He, !bind_Ok. apply IH.
Qed.

Lemma read_rows_Ok_all (shared_strings : list string) (row_elements : list element)
    (rows : list (gmap Z string)) :
  Forall (λ row, Forall (λ c, ∃ entry, cell_entry shared_strings c = Ok entry)
                        (findall "c" row)) row_elements →
  ∃ rows', for_each (read_row shared_strings) rows row_elements = Ok rows'.
Proof.
  intros H. revert rows. induction H as [|row els Hrow _ IH]; intros rows.
  - eauto.
  - cbn [for_each].
    destruct (read_cells_Ok_all shared_strings _ ∅ Hrow) as [m Hm].
    rewrite (read_row_Ok _ rows row m Hm), bind_Ok. apply IH.
Qed.

(** X5. [read_sheet_rows] fails with the exception of the first cell, in
    document order, that cannot be read: the cells and rows after it are not
    looked at and no row is returned. *)
Theorem read_sheet_rows_first_error (zf : gmap string member)
    (shared_strings : list string) (rows_pre rows_post cells_pre cells_post : list element)
    (row c : element) (e : exn) :
  read_shared_strings zf = Ok shared_strings →
  sheet_rows zf = rows_pre ++ row :: rows_post →
  findall "c" row = cells_pre ++ c :: cells_post →
  Forall (λ row, Forall (λ c, ∃ entry, cell_entry shared_strings c = Ok entry)
                        (findall "c" row)) rows_pre →
  Forall (λ c, ∃ entry, cell_entry shared_strings c = Ok entry) cells_pre →
  cell_entry shared_strings c = Raise e →
  read_sheet_rows zf = Raise e.
Proof.
  intros Hss Hrows Hcells Hpre Hcpre He.
  rewrite (read_sheet_rows_loop zf shared_strings row Hss)
    by (rewrite Hrows; apply elem_of_app; right; constructor).
  rewrite Hrows.
  destruct (read_rows_Ok_all shared_strings rows_pre [] Hpre) as [rows' Hrows'].
  apply (for_each_stops _ _ rows' _ _ _ _ Hrows').
  unfold read_row. rewrite Hcells.
  destruct (read_cells_Ok_all shared_strings cells_pre ∅ Hcpre) as [m Hm].
  rewrite (for_each_stops _ _ m _ _ _ e Hm); [reflexivity|].
  rewrite read_cell_entry, He. reflexivity.
Qed.

Lemma list_getitem_below {A : Type} (l : list A) (i : Z) :
  i < - Z.of_nat (length l) → list_getitem l i = Raise IndexError.
Proof.
  intros H. unfold list_getitem.
  replace (i <? 0) with true by (symmetry; apply Z.ltb_lt; lia).
  replace (0 <=? i + Z.of_nat (length l)) with false; [reflexivity|].
  symmetry. apply Z.leb_gt. lia.
Qed.

(** X6. A cell of shared-string type whose value parses to the index [i] is
    resolved exactly when [-n <= i < n] for a pool of [n] strings, to the
    pool entry at position [i mod n]; for every other index, also one below
    [-n], the cell raises [IndexError]. *)
Theorem shared_string_index_range (shared_strings : list string) (m : gmap Z string)
    (c raw : element) (idx i : Z) :
  cell_column c = Ok idx →
  attrib c !! "t"%string = Some "s"%string →
  find "v" c = Some raw →
  py_int (text raw) = Ok i →
  let n := Z.of_nat (length shared_strings) in
  (- n ≤ i < n →
   ∃ s, shared_strings !! Z.to_nat (i mod n) = Some s
        ∧ read_cell shared_strings m c = Ok (<[idx := s]> m))
  ∧ (¬ (- n ≤ i < n) → read_cell shared_strings m c = Raise IndexError).
Proof.
  intros Hidx Ht Hv Hi n.
  rewrite (read_cell_shared _ m c raw idx i Hidx Hv Ht Hi). split.
  - intros Hr. destruct (decide (0 ≤ i)) as [Hpos|Hneg].
    + destruct (list_getitem_nonneg shared_strings i ltac:(lia)) as (s & Hs & ->).
      exists s. rewrite Z.mod_small by lia. auto.
    + destruct (list_getitem_negative shared_strings i ltac:(lia)) as (s & Hs & ->).
      exists s. split; [|reflexivity].
      replace (i mod n) with (n + i); [exact Hs|].
      subst n. apply Z.mod_unique with (q := -1); lia.
  - intros Hr. destruct (decide (n ≤ i)) as [Hge|Hlt].
    + rewrite (list_getitem_beyond shared_strings i Hge). reflexivity.
    + rewrite (list_getitem_below shared_strings i) by (subst n; lia). reflexivity.
Qed.

Lemma read_sheet_rows_first_error_witness :
  read_shared_strings (workbook [cell_beyond]) = Ok example_pool
  ∧ cell_entry example_pool cell_beyond = Raise IndexError
  ∧ read_sheet_rows (workbook [cell_beyond]) = Raise IndexError.
Proof.
  assert (read_shared_strings (workbook [cell_beyond]) = Ok example_pool) as Hss
    by (vm_compute; reflexivity).
  assert (cell_entry example_pool cell_beyond = Raise IndexError) as He
    by (vm_compute; reflexivity).
  split; [exact Hss|]. split; [exact He|].
  apply (read_sheet_rows_first_error (workbook [cell_beyond]) example_pool
           [title_row] [] [] [] (el "row" [] None [cell_beyond]) cell_beyond IndexError Hss).
  - vm_compute. reflexivity.
  - vm_compute. reflexivity.
  - constructor; [|constructor].
    assert (findall "c" title_row = [cell "A1" (Some "s"%string) (Some "0"%string)]) as ->
      by (vm_compute; reflexivity).
    constructor; [|constructor]. exists (0, "Title"%string). vm_compute. reflexivity.
  - constructor.
  - exact He.
Defined.

Lemma shared_string_index_range_witness :
  py_int (Some "-5"%string) = Ok (-5)
  ∧ ¬ (- Z.of_nat (length example_pool) ≤ -5 < Z.of_nat (length example_pool))
  ∧ read_cell example_pool ∅ (cell "A2" (Some "s"%string) (Some "-5"%string))
    = Raise IndexError.
Proof.
  split; [reflexivity|]. split; [simpl; lia|].
  apply (shared_string_index_range example_pool ∅
           (cell "A2" (Some "s"%string) (Some "-5"%string))
           (el "v" [] (Some "-5"%string) []) 0 (-5)).
  - vm_compute. reflexivity.
  - reflexivity.
  - reflexivity.
  - reflexivity.
  - simpl. lia.
Defined.

(** ** The range of the column indices *)

Lemma alpha_upper_cases (c : ascii) :
  isalpha c = true →
  (ord c = 223 ∧ ord_str (upper c) = Raise TypeError)
  ∨ (ord c ≠ 223 ∧ ∃ u, ord_str (upper c) = Ok u ∧ 65 ≤ u).
Proof.
  each_char c; intros H; try discriminate H;
    first [ left; split; reflexivity
          | right; split; [discriminate|]; eexists; split; [reflexivity|];
            vm_compute; discriminate ].
Qed.

Lemma col_index_loop_Ok (letters : list ascii) (value : Z) :
  Forall (λ c, isalpha c = true ∧ ord c ≠ 223) letters → 0 ≤ value →
  ∃ v, for_each (λ value ch, o ← ord_str (upper ch); Ok (value * 26 + (o - 64)))
                value letters = Ok v
       ∧ value ≤ v ∧ (letters = [] → v = value) ∧ (letters ≠ [] → 1 ≤ v).
Proof.
  intros H. revert value. induction H as [|c letters [Hc Hn] _ IH]; intros value Hv.
  - exists value. split; [reflexivity|]. split; [lia|]. split; congruence.
  - destruct (alpha_upper_cases c Hc) as [[E _]|(_ & u & Hu & H65)]; [contradiction|].
    cbn [for_each]. rewrite Hu, !bind_Ok.
    destruct (IH (value * 26 + (u - 64)) ltac:(lia)) as (v & -> & Hle & _).
    exists v. split; [reflexivity|]. split; [lia|]. split; [discriminate | lia].
Qed.

Lemma col_index_loop_Raise (letters : list ascii) (value : Z) :
  Forall (λ c, isalpha c = true) letters →
  Exists (λ c, ord c = 223) letters →
  for_each (λ value ch, o ← ord_str (upper ch); Ok (value * 26 + (o - 64)))
           value letters = Raise TypeError.
Proof.
  intros H. revert value. induction H as [|c letters Hc _ IH]; intros value Hex.
  - inversion Hex.
  - cbn [for_each].
    destruct (alpha_upper_cases c Hc) as [[E ->]|(Hne & u & -> & _)]; [reflexivity|].
    rewrite !bind_Ok. apply IH. inversion Hex; [contradiction | assumption].
Qed.

(** X7. [col_index] raises, a [TypeError], exactly on the references that
    hold the sharp s. On every other reference it returns an index that is
    at least -1, and -1 exactly when the reference has no letter. *)
Theorem col_index_range (s : string) :
  (has_sharp_s s = true → col_index s = Raise TypeError)
  ∧ (has_sharp_s s = false →
     ∃ v, col_index s = Ok v ∧ -1 ≤ v ∧ (v = -1 ↔ has_letter s = false)).
Proof.
  unfold has_sharp_s, has_letter, col_index. fold (chars s).
  assert (Forall (λ c, isalpha c = true) (List.filter isalpha (chars s))) as Halpha.
  { apply List.Forall_forall. intros c Hc. apply List.filter_In in Hc. tauto. }
  split; intros H.
  - rewrite col_index_loop_Raise; [reflexivity | exact Halpha |].
    apply existsb_exists in H as (c & Hin & Hc). apply List.Exists_exists.
    exists c. apply Z.eqb_eq in Hc. split; [|exact Hc].
    apply List.filter_In. split; [exact Hin|].
    revert Hc. clear. each_char c; intros H; try discriminate H; reflexivity.
  - destruct (col_index_loop_Ok (List.filter isalpha (chars s)) 0)
      as (v & -> & _ & Hnil & Hcons); [|lia|].
    { apply List.Forall_forall. intros c Hc. apply List.filter_In in Hc as [Hin Hc].
      split; [exact Hc|]. intros E.
      assert (existsb (λ c, ord c =? 223) (chars s) = true); [|congruence].
      apply existsb_exists. exists c. split; [exact Hin | apply Z.eqb_eq, E]. }
    exists (v - 1). split; [reflexivity|].
    destruct (List.filter isalpha (chars s)) as [|c letters] eqn:E.
    + rewrite (Hnil eq_refl). split; [lia|]. split; [|reflexivity]. intros _.
      destruct (existsb isalpha (chars s)) eqn:Hex; [|reflexivity].
      apply existsb_exists in Hex as (c & Hin & Hc).
      assert (In c (List.filter isalpha (chars s))) as Hf
        by (apply List.filter_In; auto).
      rewrite E in Hf. destruct Hf.
    + pose proof (Hcons ltac:(discriminate)). split; [lia|]. split; [lia|].
      intros Hex. exfalso.
      assert (In c (List.filter isalpha (chars s))) as Hf by (rewrite E; left; reflexivity).
      apply List.filter_In in Hf as [Hin Hc].
      assert (existsb isalpha (chars s) = true); [|congruence].
      apply existsb_exists. eauto.
Qed.

Lemma col_index_range_witness :
  has_sharp_s "B7" = false
  ∧ ∃ v, col_index "B7" = Ok v ∧ -1 ≤ v ∧ (v = -1 ↔ has_letter "B7" = false).
Proof. split; [reflexivity | apply (proj2 (col_index_range "B7")); reflexivity]. Defined.

(** ** Every index is the index of one letter run *)

Lemma ord_chr (n : Z) : 0 ≤ n < 256 → ord (chr n) = n.
Proof.
  intros H. unfold ord, chr. rewrite N_ascii_embedding by lia. lia.
Qed.

Lemma letter_run_of_value (v : Z) :
  0 ≤ v → ∃ cs, uppercase cs = true ∧ fold_left step26 (map letter_ord cs) 0 = v.
Proof.
  intros Hv. revert Hv. pattern v. apply (well_founded_induction (Z.lt_wf 0)).
  clear v. intros v IH Hv.
  destruct (decide (v = 0)) as [->|Hne]; [exists []; split; reflexivity|].
  assert (0 ≤ (v - 1) / 26 < v) as Hq by (Z.div_mod_to_equations; lia).
  destruct (IH ((v - 1) / 26) Hq ltac:(lia)) as (cs & Hcs & Hval).
  assert (0 ≤ (v - 1) mod 26 < 26) as Hd by (apply Z.mod_pos_bound; lia).
  exists (cs ++ [chr (65 + (v - 1) mod 26)]). split.
  - unfold uppercase in *. rewrite forallb_app, Hcs. simpl.
    rewrite ord_chr by lia. unfold in_range.
    rewrite andb_true_r. apply andb_true_iff. split; [apply Z.leb_le | apply Z.leb_le]; lia.
  - rewrite map_app, fold_left_app, Hval. simpl. unfold step26, letter_ord.
    rewrite ord_chr by lia. Z.div_mod_to_equations. lia.
Qed.

(** X8. Every integer from 0 on is the column index of exactly one run of
    uppercase letters: the letter runs number the columns without a gap. *)
Theorem col_index_onto (n : Z) :
  0 ≤ n →
  ∃ s, letter_run s = true ∧ col_index s = Ok n
       ∧ ∀ s', letter_run s' = true → col_index s' = Ok n → s' = s.
Proof.
  intros Hn. destruct (letter_run_of_value (n + 1) ltac:(lia)) as (cs & Hcs & Hval).
  exists (string_of_list_ascii cs).
  assert (chars (string_of_list_ascii cs) = cs) as Hchars
    by apply list_ascii_of_string_of_list_ascii.
  assert (letter_run (string_of_list_ascii cs) = true) as Hrun
    by (unfold letter_run; rewrite Hchars; exact Hcs).
  assert (col_index (string_of_list_ascii cs) = Ok n) as Hcol.
  { rewrite (col_index_run _ Hrun), Hchars, Hval. f_equal. lia. }
  split; [exact Hrun|]. split; [exact Hcol|].
  intros s' Hrun' Hcol'.
  pose proof (col_index_run s' Hrun') as E'. rewrite Hcol' in E'.
  pose proof (col_index_run _ Hrun) as E. rewrite Hcol in E.
  injection E as E. injection E' as E'.
  destruct (shortlex_trichotomy s' (string_of_list_ascii cs)) as [H|[H|H]]; [exact H | |].
  - pose proof (run_value_shortlex _ _ Hrun' Hrun H). lia.
  - pose proof (run_value_shortlex _ _ Hrun Hrun' H). lia.
Qed.

Lemma col_index_onto_witness :
  0 ≤ 1023
  ∧ ∃ s, letter_run s = true ∧ col_index s = Ok 1023
         ∧ ∀ s', letter_run s' = true → col_index s' = Ok 1023 → s' = s.
Proof. split; [lia | apply col_index_onto; lia]. Defined.

(** ** Reading the file back *)

Lemma be32_4 (n : Z) (bs : list byte) :
  be32 n bs → ∃ a b c d, bs = [a; b; c; d].
Proof.
  intros [L _]. destruct bs as [|a [|b [|c [|d [|]]]]]; try discriminate. eauto.
Qed.

Lemma framed_IEND (out : list byte) :
  framed tag_IEND [] out →
  out = [x00; x00; x00; x00; x49; x45; x4e; x44; xae; x42; x60; x82].
Proof.
  intros H. apply (framed_unique tag_IEND [] _ _ H).
  exact (proj2 (chunk_Ok_inv tag_IEND [] _ chunk_IEND)).
Qed.

(** X9. A file the encoder writes can be read back at fixed places: it
    begins with the signature, then the length 13 and the tag of the header
    chunk; the bytes 16 to 19 hold the width and the bytes 20 to 23 the
    height, big-endian, followed by 8, 2, 0, 0, 0; the file is 57 bytes
    longer than the compressed stream and ends with the 12 bytes of the
    empty trailer chunk. *)
Theorem png_header_fields (compress : list byte → Z → list byte)
    (width height : Z) (rgb_rows : list (list byte)) :
  fields_fit compress width height rgb_rows →
  ∃ png, make_png_bytes compress width height rgb_rows = Ok png
    ∧ take 8 png = png_signature
    ∧ take 8 (drop 8 png) = [x00; x00; x00; x0d] ++ tag_IHDR
    ∧ big_endian (take 4 (drop 16 png)) = width
    ∧ big_endian (take 4 (drop 20 png)) = height
    ∧ take 5 (drop 24 png) = [x08; x02; x00; x00; x00]
    ∧ Z.of_nat (length png)
      = 57 + Z.of_nat (length (compress (scanline_stream rgb_rows) 9))
    ∧ drop (length png - 12) png
      = [x00; x00; x00; x00; x49; x45; x4e; x44; xae; x42; x60; x82].
Proof.
  intros Hfit.
  destruct (make_png_bytes_Ok compress width height rgb_rows Hfit)
    as (png & E & w4 & h4 & c1 & c2 & c3 & -> & Hw & Hh & F1 & F2 & F3).
  exists (png_signature ++ c1 ++ c2 ++ c3). split; [exact E|].
  apply framed_IEND in F3. subst c3.
  assert (∀ pre last : list byte, drop (length (pre ++ last) - length last) (pre ++ last) = last)
    as Hdrop.
  { intros pre last. rewrite length_app, Nat.add_sub. apply drop_app_length. }
  pose proof (Hdrop (png_signature ++ c1 ++ c2)
                    [x00; x00; x00; x00; x49; x45; x4e; x44; xae; x42; x60; x82]) as Hlast.
  rewrite <- !app_assoc in Hlast. change (length [_; _; _; _; _; _; _; _; _; _; _; _])
    with 12%nat in Hlast.
  revert Hlast. generalize (length (png_signature ++ c1 ++ c2 ++
    [x00; x00; x00; x00; x49; x45; x4e; x44; xae; x42; x60; x82]) - 12)%nat.
  intros off Hlast.
  destruct (be32_4 _ _ Hw) as (a0 & a1 & a2 & a3 & ->).
  destruct (be32_4 _ _ Hh) as (b0 & b1 & b2 & b3 & ->).
  destruct F1 as (l1 & crc1 & -> & Hl1 & Hc1).
  destruct F2 as (l2 & crc2 & -> & Hl2 & Hc2).
  assert (l1 = [x00; x00; x00; x0d]) as ->
    by (apply (be32_unique _ _ _ Hl1); split; reflexivity).
  destruct (be32_4 _ _ Hc1) as (k0 & k1 & k2 & k3 & ->).
  destruct (be32_4 _ _ Hl2) as (m0 & m1 & m2 & m3 & ->).
  destruct (be32_4 _ _ Hc2) as (j0 & j1 & j2 & j3 & ->).
  destruct Hw as [_ Hw], Hh as [_ Hh].
  split; [reflexivity|]. split; [reflexivity|].
  split; [exact Hw|]. split; [exact Hh|]. split; [reflexivity|]. split.
  - repeat (rewrite length_app; cbn [length]).
    unfold png_signature, tag_IHDR, tag_IDAT. cbn [length]. lia.
  - exact Hlast.
Qed.

Lemma png_header_fields_witness :
  fields_fit deflate_stored 1200 106 [[x00; x00; x00]]
  ∧ ∃ png, make_png_bytes deflate_stored 1200 106 [[x00; x00; x00]] = Ok png
    ∧ take 8 png = png_signature
    ∧ take 8 (drop 8 png) = [x00; x00; x00; x0d] ++ tag_IHDR
    ∧ big_endian (take 4 (drop 16 png)) = 1200
    ∧ big_endian (take 4 (drop 20 png)) = 106
    ∧ take 5 (drop 24 png) = [x08; x02; x00; x00; x00]
    ∧ Z.of_nat (length png)
      = 57 + Z.of_nat (length (deflate_stored (scanline_stream [[x00; x00; x00]]) 9))
    ∧ drop (length png - 12) png
      = [x00; x00; x00; x00; x49; x45; x4e; x44; xae; x42; x60; x82].
Proof.
  assert (fields_fit deflate_stored 1200 106 [[x00; x00; x00]]) as H.
  { unfold fields_fit, u32. vm_compute. intuition discriminate. }
  split; [exact H | apply png_header_fields, H].
Defined.

(** ** The stream of scanlines *)

Lemma scanline_stream_blocks (n : nat) (rgb_rows : list (list byte)) :
  Forall (λ row, length row = n) rgb_rows →
  length (scanline_stream rgb_rows) = (length rgb_rows * S n)%nat
  ∧ ∀ (k : nat) row, rgb_rows !! k = Some row →
      take (S n) (drop (k * S n) (scanline_stream rgb_rows)) = x00 :: row.
Proof.
  rewrite <- raw_scanline_stream.
  induction 1 as [|r rows Hr Hrows [IHlen IHblock]].
  - split; [reflexivity|]. intros k row Hk. discriminate.
  - cbn [map concat]. split.
    + rewrite length_app, IHlen. simpl. rewrite Hr. lia.
    + intros [|k] row Hk.
      * injection Hk as <-. rewrite Nat.mul_0_l, drop_0.
        apply take_app_length'. simpl. rewrite Hr. reflexivity.
      * simpl in Hk. rewrite <- (IHblock k row Hk). f_equal.
        replace (S k * S n)%nat with (length ([x00] ++ r) + k * S n)%nat
          by (simpl; rewrite Hr; lia).
        apply drop_app_add.
Qed.

(** X10. Whatever the compressor, the data chunk of the file [make_png]
    builds holds the compression of a raw stream with this shape, when every
    scanline has [n] bytes: the stream has [n+1] bytes per scanline, and its
    k-th block of [n+1] bytes is the filter byte 0 followed by the k-th
    scanline, so that the scanlines can be read back from the stream. *)
Theorem scanline_blocks (compress : list byte → Z → list byte) (width height : Z)
    (n : nat) (rgb_rows : list (list byte)) :
  Forall (λ row, length row = n) rgb_rows →
  fields_fit compress width height rgb_rows →
  ∃ raw png,
    make_png_bytes compress width height rgb_rows = Ok png
    ∧ png_layout width height (compress raw 9) png
    ∧ length raw = (length rgb_rows * S n)%nat
    ∧ ∀ (k : nat) row, rgb_rows !! k = Some row →
        take (S n) (drop (k * S n) raw) = x00 :: row.
Proof.
  intros Hn Hfit.
  destruct (make_png_bytes_Ok compress width height rgb_rows Hfit) as (png & E & L).
  destruct (scanline_stream_blocks n rgb_rows Hn) as [Hlen Hblock].
  exists (scanline_stream rgb_rows), png. auto.
Qed.

(** With the compressor that hands its input on unchanged, the data of the
    data chunk is the raw stream itself. *)
Example scanline_blocks_traced :
  make_png_bytes (λ raw _, raw) 1 2 [[x01; x02; x03]; [x04; x05; x06]]
  = Ok (png_signature
        ++ [x00; x00; x00; x0d] ++ tag_IHDR
        ++ [x00; x00; x00; x01; x00; x00; x00; x02; x08; x02; x00; x00; x00]
        ++ [x16; xe3; x21; x70]
        ++ [x00; x00; x00; x08] ++ tag_IDAT
        ++ [x00; x01; x02; x03; x00; x04; x05; x06]
        ++ [xd1; x4a; x74; x44]
        ++ [x00; x00; x00; x00; x49; x45; x4e; x44; xae; x42; x60; x82]).
Proof. vm_compute. reflexivity. Qed.

Lemma scanline_blocks_witness :
  Forall (λ row : list byte, length row = 3%nat) [[x01; x02; x03]; [x04; x05; x06]]
  ∧ fields_fit deflate_stored 1 2 [[x01; x02; x03]; [x04; x05; x06]]
  ∧ ∃ raw png,
      make_png_bytes deflate_stored 1 2 [[x01; x02; x03]; [x04; x05; x06]] = Ok png
      ∧ png_layout 1 2 (deflate_stored raw 9) png
      ∧ length raw = (length [[x01; x02; x03]; [x04; x05; x06]] * 4)%nat
      ∧ ∀ (k : nat) row, [[x01; x02; x03]; [x04; x05; x06]] !! k = Some row →
          take 4 (drop (k * 4) raw) = x00 :: row.
Proof.
  assert (Forall (λ row : list byte, length row = 3%nat)
                 [[x01; x02; x03]; [x04; x05; x06]]) as H by (repeat constructor).
  assert (fields_fit deflate_stored 1 2 [[x01; x02; x03]; [x04; x05; x06]]) as Hfit.
  { unfold fields_fit, u32. vm_compute. intuition discriminate. }
  split; [exact H|]. split; [exact Hfit|].
  apply (scanline_blocks deflate_stored 1 2 3 _ H Hfit).
Defined.

(** ** Scanlines as functions of the place *)

Lemma flat_map_ext_in' {A B : Type} (f g : A → list B) (l : list A) :
  (∀ a, In a l → f a = g a) → flat_map f l = flat_map g l.
Proof.
  intros H. rewrite !flat_map_concat_map. f_equal. apply map_ext_in, H.
Qed.

Lemma length_flat_map_const {A B : Type} (g : A → list B) (k : nat) (l : list A) :
  (∀ x, length (g x) = k) → length (flat_map g l) = (length l * k)%nat.
Proof.
  intros H. induction l as [|a l IH]; [reflexivity|].
  simpl. rewrite length_app, H, IH. reflexivity.
Qed.

Lemma render_row_ext {A : Type} (g g' : nat → list A) (w : nat) :
  (∀ x, (x < w)%nat → g x = g' x) → render_row g w = render_row g' w.
Proof.
  intros H. apply flat_map_ext_in'. intros x Hx. apply in_seq in Hx. apply H. lia.
Qed.

Lemma render_ext {A : Type} (G G' : nat → nat → list A) (h w : nat) :
  (∀ y x, (y < h)%nat → (x < w)%nat → G y x = G' y x) → render G h w = render G' h w.
Proof.
  intros H. apply map_ext_in. intros y Hy. apply in_seq in Hy.
  apply render_row_ext. intros x Hx. apply H; lia.
Qed.

Lemma lookup_render {A : Type} (G : nat → nat → list A) (h w j : nat) :
  render G h w !! j = if decide (j < h)%nat then Some (render_row (G j) w) else None.
Proof.
  unfold render. rewrite list_lookup_fmap. destruct (decide (j < h)%nat) as [H|H].
  - rewrite lookup_seq_lt by exact H. reflexivity.
  - rewrite lookup_seq_ge by lia. reflexivity.
Qed.

Lemma length_render {A : Type} (G : nat → nat → list A) (h w : nat) :
  length (render G h w) = h.
Proof. unfold render. rewrite length_map, length_seq. reflexivity. Qed.

Lemma insert_render {A : Type} (G : nat → nat → list A) (h w y : nat)
    (g' : nat → list A) :
  (y < h)%nat →
  <[y := render_row g' w]> (render G h w)
  = render (λ y', if decide (y' = y) then g' else G y') h w.
Proof.
  intros Hy. apply list_eq. intros j. rewrite lookup_render.
  destruct (decide (j = y)) as [->|Hne].
  - rewrite list_lookup_insert_eq by (rewrite length_render; exact Hy).
    destruct (decide (y < h)%nat); [|contradiction].
    destruct (decide (y = y)); [reflexivity | contradiction].
  - rewrite list_lookup_insert_ne by congruence. rewrite lookup_render.
    destruct (decide (j < h)%nat); [|reflexivity].
    destruct (decide (j = y)); [contradiction | reflexivity].
Qed.

Lemma slice_bound_inside (n : nat) (i : Z) :
  0 ≤ i ≤ Z.of_nat n → slice_bound n i = Z.to_nat i.
Proof.
  intros H. unfold slice_bound.
  replace (i <? 0) with false by (symmetry; apply Z.ltb_ge; lia).
  f_equal. lia.
Qed.

(** Assigning a colour to the three samples of pixel [k] of a scanline. *)
Lemma slice_assign_pixel {A : Type} (g : nat → list A) (w k : nat) (c : list A) :
  (∀ x, length (g x) = 3%nat) → (k < w)%nat →
  slice_assign (render_row g w) (Z.of_nat k * 3) (Z.of_nat k * 3 + 3) c
  = render_row (λ x, if decide (x = k) then c else g x) w.
Proof.
  intros Hg Hk. unfold render_row.
  assert (seq 0 w = seq 0 k ++ k :: seq (S k) (w - S k)) as ->.
  { replace w with (k + S (w - S k))%nat at 1 by lia. rewrite seq_app. reflexivity. }
  rewrite !flat_map_app. cbn [flat_map].
  destruct (decide (k = k)) as [_|]; [|contradiction].
  rewrite (flat_map_ext_in' (λ x, if decide (x = k) then c else g x) g (seq 0 k)).
  2:{ intros x Hx. apply in_seq in Hx. destruct (decide (x = k)); [lia | reflexivity]. }
  rewrite (flat_map_ext_in' (λ x, if decide (x = k) then c else g x) g (seq (S k) _)).
  2:{ intros x Hx. apply in_seq in Hx. destruct (decide (x = k)); [lia | reflexivity]. }
  set (a := flat_map g (seq 0 k)). set (b := flat_map g (seq (S k) (w - S k))).
  assert (length a = (k * 3)%nat) as La.
  { unfold a. rewrite (length_flat_map_const g 3) by exact Hg. rewrite length_seq. reflexivity. }
  unfold slice_assign.
  assert (length (a ++ g k ++ b) = (k * 3 + 3 + length b)%nat) as L
    by (rewrite !length_app, La, Hg; lia).
  rewrite !slice_bound_inside by lia.
  replace (Z.to_nat (Z.of_nat k * 3)) with (k * 3)%nat by lia.
  replace (Nat.max (k * 3) (Z.to_nat (Z.of_nat k * 3 + 3))) with (k * 3 + 3)%nat by lia.
  rewrite take_app_length' by (symmetry; exact La). f_equal. f_equal.
  rewrite app_assoc. apply drop_app_length'. rewrite length_app, La, Hg. reflexivity || (symmetry; reflexivity).
Qed.

Lemma update_row_render (G : nat → nat → list Z) (h w y : nat)
    (change : list Z → list Z) :
  (y < h)%nat →
  update_row (render G h w) (Z.of_nat y) change
  = Ok (<[y := change (render_row (G y) w)]> (render G h w)).
Proof.
  intros Hy. unfold update_row.
  destruct (list_getitem_nonneg (render G h w) (Z.of_nat y)) as (row & Hrow & ->).
  { rewrite length_render. lia. }
  rewrite Nat2Z.id, lookup_render in Hrow.
  destruct (decide (y < h)%nat); [|contradiction]. injection Hrow as <-.
  rewrite bind_Ok.
  replace (Z.of_nat y <? 0) with false by (symmetry; apply Z.ltb_ge; lia).
  rewrite Nat2Z.id. reflexivity.
Qed.

Lemma for_each_ext {A S : Type} (body body' : S → A → result S) (xs : list A) (s : S) :
  (∀ s x, x ∈ xs → body s x = body' s x) → for_each body s xs = for_each body' s xs.
Proof.
  revert s. induction xs as [|x xs IH]; intros s H; [reflexivity|].
  simpl. rewrite (H s x) by constructor.
  destruct (body' s x) as [s'|e]; [|reflexivity].
  apply IH. intros s0 x0 Hx0. apply H. constructor. exact Hx0.
Qed.

(** A loop that changes the scanlines [a], .., [a+m-1], one after the other. *)
Lemma update_rows_render (change : list Z → list Z)
    (T : (nat → list Z) → nat → list Z) (h w : nat) :
  (∀ g, (∀ x, length (g x) = 3%nat) →
        change (render_row g w) = render_row (T g) w
        ∧ ∀ x, length (T g x) = 3%nat) →
  ∀ (m a : nat) (G : nat → nat → list Z),
    (∀ y x, length (G y x) = 3%nat) → (a + m ≤ h)%nat →
    for_each (λ canvas y, update_row canvas y change) (render G h w)
             (seqZ (Z.of_nat a) (Z.of_nat m))
    = Ok (render (λ y, if decide (a ≤ y < a + m)%nat then T (G y) else G y) h w).
Proof.
  intros Hchange. induction m as [|m IH]; intros a G HG Ha.
  - simpl. f_equal. apply render_ext. intros y x _ _.
    destruct (decide (a ≤ y < a + 0)%nat); [lia | reflexivity].
  - rewrite seqZ_cons by lia. cbn [for_each].
    rewrite (update_row_render G h w a change) by lia.
    destruct (Hchange (G a) (HG a)) as [Hc HT].
    rewrite bind_Ok, Hc, insert_render by lia.
    replace (Z.succ (Z.of_nat a)) with (Z.of_nat (S a)) by lia.
    replace (Z.pred (Z.of_nat (S m))) with (Z.of_nat m) by lia.
    rewrite IH; [| |lia].
    + f_equal. apply render_ext. intros y x _ _.
      destruct (decide (S a ≤ y < S a + m)%nat), (decide (a ≤ y < a + S m)%nat),
               (decide (y = a)); try lia; subst; reflexivity.
    + intros y x. destruct (decide (y = a)); [apply HT | apply HG].
Qed.

(** The loop over [x] that paints the pixels [a], .., [a+m-1] of a scanline. *)
Lemma paint_pixels_render (c : list Z) (w : nat) :
  length c = 3%nat →
  ∀ (m a : nat) (g : nat → list Z),
    (∀ x, length (g x) = 3%nat) → (a + m ≤ w)%nat →
    fold_left (λ row_px x, let p := x * 3 in slice_assign row_px p (p + 3) c)
              (seqZ (Z.of_nat a) (Z.of_nat m)) (render_row g w)
    = render_row (λ x, if decide (a ≤ x < a + m)%nat then c else g x) w.
Proof.
  intros Hc. induction m as [|m IH]; intros a g Hg Ha.
  - simpl. apply render_row_ext. intros x _.
    destruct (decide (a ≤ x < a + 0)%nat); [lia | reflexivity].
  - rewrite seqZ_cons by lia. cbn [fold_left].
    rewrite (slice_assign_pixel g w a c Hg) by lia.
    replace (Z.succ (Z.of_nat a)) with (Z.of_nat (S a)) by lia.
    replace (Z.pred (Z.of_nat (S m))) with (Z.of_nat m) by lia.
    rewrite IH; [| |lia].
    + apply render_row_ext. intros x _.
      destruct (decide (S a ≤ x < S a + m)%nat), (decide (a ≤ x < a + S m)%nat),
               (decide (x = a)); try lia; reflexivity.
    + intros x. destruct (decide (x = a)); [exact Hc | apply Hg].
Qed.

(** ** From samples to bytes *)

Lemma bytes_of_ints_app (l1 l2 : list Z) :
  bytes_of_ints (l1 ++ l2)
  = (b1 ← bytes_of_ints l1; b2 ← bytes_of_ints l2; Ok (b1 ++ b2)).
Proof.
  induction l1 as [|n l1 IH].
  - simpl. destruct (bytes_of_ints l2); reflexivity.
  - cbn [app bytes_of_ints]. destruct (in_range 0 255 n); [|reflexivity].
    rewrite IH. destruct (bytes_of_ints l1) as [b1|e]; [|reflexivity].
    rewrite !bind_Ok. destruct (bytes_of_ints l2); reflexivity.
Qed.

Lemma bytes_of_ints_Ok (l : list Z) :
  Forall (λ v, in_range 0 255 v = true) l → bytes_of_ints l = Ok (map byte_of_Z l).
Proof.
  induction 1 as [|n l Hn _ IH]; [reflexivity|].
  simpl. rewrite Hn, IH. reflexivity.
Qed.

Lemma bytes_of_flat_map {A : Type} (g : A → list Z) (l : list A) :
  (∀ x, Forall (λ v, in_range 0 255 v = true) (g x)) →
  bytes_of_ints (flat_map g l) = Ok (flat_map (λ x, map byte_of_Z (g x)) l).
Proof.
  intros Hg. induction l as [|a l IH]; [reflexivity|].
  cbn [flat_map]. rewrite bytes_of_ints_app, (bytes_of_ints_Ok _ (Hg a)), IH. reflexivity.
Qed.

Lemma bytes_of_render_row (g : nat → list Z) (w : nat) :
  (∀ x, Forall (λ v, in_range 0 255 v = true) (g x)) →
  bytes_of_ints (render_row g w) = Ok (render_row (λ x, map byte_of_Z (g x)) w).
Proof. apply bytes_of_flat_map. Qed.

Lemma bytes_of_render (G : nat → nat → list Z) (h w : nat) :
  (∀ y x, Forall (λ v, in_range 0 255 v = true) (G y x)) →
  for_each (λ rgb_rows row, bs ← bytes_of_ints row; Ok (rgb_rows ++ [bs]))
           [] (render G h w)
  = Ok (render (λ y x, map byte_of_Z (G y x)) h w).
Proof.
  intros HG. unfold render.
  assert (∀ (l : list nat) (acc : list (list byte)),
            for_each (λ rgb_rows row, bs ← bytes_of_ints row; Ok (rgb_rows ++ [bs]))
                     acc (map (λ y, render_row (G y) w) l)
            = Ok (acc ++ map (λ y, render_row (λ x, map byte_of_Z (G y x)) w) l)) as H.
  { induction l as [|y l IH]; intros acc.
    - simpl. rewrite app_nil_r. reflexivity.
    - cbn [map for_each].
      rewrite (bytes_of_render_row (G y) w (HG y)), !bind_Ok, IH, <- app_assoc.
      reflexivity. }
  apply H.
Qed.

(** ** Drawing the chart *)

Local Ltac bool_cases :=
  repeat match goal with
         | |- context [?a <=? ?b] => destruct (Z.leb_spec a b)
         | |- context [?a <? ?b] => destruct (Z.ltb_spec a b)
         | |- context [?a =? ?b] => destruct (Z.eqb_spec a b)
         | |- context [decide ?P] => destruct (decide P)
         end;
  cbn [andb orb]; try reflexivity; try lia.

Lemma seqZ_to_nat (a len : Z) : seqZ a len = seqZ a (Z.of_nat (Z.to_nat len)).
Proof. unfold seqZ. rewrite Nat2Z.id. reflexivity. Qed.

Lemma map_const_length {A B C : Type} (c : C) (l : list A) (l' : list B) :
  length l = length l' → map (λ _, c) l = map (λ _, c) l'.
Proof.
  revert l'. induction l as [|a l IH]; intros [|b l'] H; try discriminate H; [reflexivity|].
  simpl. f_equal. apply IH. simpl in H. lia.
Qed.

Lemma concat_replicate {A : Type} (c : list A) (n a : nat) :
  concat (replicate n c) = flat_map (λ _, c) (seq a n).
Proof.
  revert a. induction n as [|n IH]; intros a; [reflexivity|].
  simpl. f_equal. apply IH.
Qed.

Lemma blank_canvas (height : Z) (w : nat) :
  map (λ _, concat (replicate w background)) (py_range 0 height)
  = render (λ _ _, background) (Z.to_nat height) w.
Proof.
  unfold render, render_row. rewrite (concat_replicate background w 0).
  apply map_const_length. unfold py_range. rewrite length_seqZ, length_seq. f_equal. lia.
Qed.

Lemma color_length (c : list Z) : is_color c → length c = 3%nat.
Proof. intros [H _]. exact H. Qed.

Lemma background_color : is_color background.
Proof. split; [reflexivity | repeat constructor]. Qed.

Lemma bar_color_color : is_color bar_color.
Proof. split; [reflexivity | repeat constructor]. Qed.

Lemma axis_color_color : is_color axis_color.
Proof. split; [reflexivity | repeat constructor]. Qed.

Section ChartProperties.

Variable F : Type.
Variable bar_extent : list F → F → result Z.
Variable compress : list byte → Z → list byte.
Variable w : nat.
Hypothesis w_wide : (1200 ≤ w)%nat.

Lemma draw_axis_render (n : nat) :
  draw_axis (chart_height n) (Z.of_nat n * (bar_h + bar_gap) - bar_gap)
            (render (λ _ _, background) (Z.to_nat (chart_height n)) w)
  = Ok (render (λ y x, if axis_at n (Z.of_nat x) (Z.of_nat y)
                       then axis_color else background)
               (Z.to_nat (chart_height n)) w).
Proof.
  unfold draw_axis, py_range.
  remember (Z.to_nat (chart_height n)) as h eqn:Eh.
  replace (chart_top + (Z.of_nat n * (bar_h + bar_gap) - bar_gap) + 1 - (chart_top - 10))
    with (52 * Z.of_nat n - 5) by (unfold chart_top, bar_h, bar_gap; lia).
  remember (52 * Z.of_nat n - 5) as len eqn:Hlen.
  replace (chart_top - 10) with (Z.of_nat 30) by reflexivity.
  rewrite (seqZ_to_nat _ len).
  rewrite (for_each_ext _
             (λ canvas y, update_row canvas y
                            (λ row, slice_assign row (Z.of_nat 199 * 3)
                                                 (Z.of_nat 199 * 3 + 3) axis_color))).
  2:{ intros canvas y Hy. apply elem_of_seqZ in Hy. cbv zeta.
      replace ((0 <=? y) && (y <? chart_height n)) with true; [reflexivity|].
      symmetry. apply andb_true_iff. unfold chart_height.
      split; [apply Z.leb_le | apply Z.ltb_lt]; lia. }
  rewrite (update_rows_render _ (λ g x, if decide (x = 199%nat) then axis_color else g x)
             h w).
  - f_equal. apply render_ext. intros y x Hy Hx. unfold axis_at.
    destruct (decide (30 ≤ y < 30 + Z.to_nat len)%nat), (decide (x = 199%nat));
      bool_cases.
  - intros g Hg. split.
    + apply slice_assign_pixel; [exact Hg | lia].
    + intros x. destruct (decide (x = 199%nat)); [reflexivity | apply Hg].
  - intros y x. reflexivity.
  - unfold chart_height in Eh. lia.
Qed.

Lemma draw_bar_render (rows : list F) (row : F) (extent : Z) (k n : nat)
    (G : nat → nat → list Z) :
  bar_extent rows row = Ok extent → (k < n)%nat →
  (∀ y x, length (G y x) = 3%nat) →
  draw_bar F bar_extent rows (render G (Z.to_nat (chart_height n)) w) (Z.of_nat k, row)
  = Ok (render (λ y x, if in_band k extent (Z.of_nat x) (Z.of_nat y)
                       then bar_color else G y x)
               (Z.to_nat (chart_height n)) w).
Proof.
  intros He Hk HG. unfold draw_bar. rewrite He, bind_Ok. cbv zeta. unfold py_range.
  replace (Z.min (chart_width - chart_right) (chart_left + Z.max 1 extent))
    with (Z.min 1160 (200 + Z.max 1 extent)) by reflexivity.
  remember (Z.min 1160 (200 + Z.max 1 extent)) as x1 eqn:Ex1.
  assert (201 ≤ x1 ≤ 1160) as Hx1 by lia.
  replace (chart_top + Z.of_nat k * (bar_h + bar_gap) + bar_h
           - (chart_top + Z.of_nat k * (bar_h + bar_gap))) with (Z.of_nat 36)
    by (unfold bar_h; lia).
  replace (chart_top + Z.of_nat k * (bar_h + bar_gap)) with (Z.of_nat (40 + 52 * k))
    by (unfold chart_top, bar_h, bar_gap; lia).
  replace chart_left with (Z.of_nat 200) by reflexivity.
  rewrite (seqZ_to_nat (Z.of_nat 200) (x1 - Z.of_nat 200)).
  remember (Z.to_nat (x1 - Z.of_nat 200)) as mx eqn:Emx.
  rewrite (update_rows_render _
             (λ g x, if decide (200 ≤ x < 200 + mx)%nat then bar_color else g x)
             (Z.to_nat (chart_height n)) w).
  - f_equal. apply render_ext. intros y x Hy Hx. unfold in_band. rewrite <- Ex1.
    destruct (decide (40 + 52 * k ≤ y < 40 + 52 * k + 36)%nat),
             (decide (200 ≤ x < 200 + mx)%nat); bool_cases.
  - intros g Hg. split.
    + apply paint_pixels_render; [reflexivity | exact Hg | lia].
    + intros x. destruct (decide (200 ≤ x < 200 + mx)%nat); [reflexivity | apply Hg].
  - exact HG.
  - unfold chart_height. lia.
Qed.

Lemma draw_bars_render (rows : list F) (n : nat) (rows' : list F) (extents' : list Z) :
  Forall2 (λ row extent, bar_extent rows row = Ok extent) rows' extents' →
  ∀ (k : nat) (G : nat → nat → list Z),
    (k + length rows' ≤ n)%nat →
    (∀ y x, length (G y x) = 3%nat) →
    for_each (draw_bar F bar_extent rows) (render G (Z.to_nat (chart_height n)) w)
             (zip (seqZ (Z.of_nat k) (Z.of_nat (length rows'))) rows')
    = Ok (render (λ y x, if bars_from k extents' (Z.of_nat x) (Z.of_nat y)
                         then bar_color else G y x)
                 (Z.to_nat (chart_height n)) w).
Proof.
  induction 1 as [|row extent rows' extents' He _ IH]; intros k G Hk HG.
  - simpl. reflexivity.
  - cbn [length]. rewrite seqZ_cons by lia. cbn [zip zip_with for_each].
    rewrite (draw_bar_render rows row extent k n G He) by (simpl in Hk; lia || exact HG).
    rewrite bind_Ok.
    replace (Z.succ (Z.of_nat k)) with (Z.of_nat (S k)) by lia.
    replace (Z.pred (Z.of_nat (S (length rows')))) with (Z.of_nat (length rows')) by lia.
    rewrite IH.
    + f_equal. apply render_ext. intros y x _ _. cbn [bars_from].
      destruct (in_band k extent (Z.of_nat x) (Z.of_nat y)),
               (bars_from (S k) extents' (Z.of_nat x) (Z.of_nat y)); reflexivity.
    + simpl in Hk. lia.
    + intros y x. destruct (in_band k extent (Z.of_nat x) (Z.of_nat y));
        [reflexivity | apply HG].
Qed.

End ChartProperties.

Lemma bars_from_spec (extents : list Z) (k : nat) (x y : Z) :
  bars_from k extents x y = true
  ↔ ∃ (j : nat) extent, extents !! j = Some extent ∧ in_band (k + j) extent x y = true.
Proof.
  revert k. induction extents as [|e extents IH]; intros k.
  - simpl. split; [discriminate | intros (j & extent & H & _); discriminate].
  - cbn [bars_from]. rewrite orb_true_iff, IH. split.
    + intros [H|(j & extent & Hj & H)].
      * exists 0%nat, e. rewrite Nat.add_0_r. auto.
      * exists (S j), extent. rewrite Nat.add_succ_r. auto.
    + intros ([|j] & extent & Hj & H).
      * left. injection Hj as <-. rewrite Nat.add_0_r in H. exact H.
      * right. exists j, extent. rewrite Nat.add_succ_r in H. auto.
Qed.

Lemma in_band_rank (k : nat) (extent x y : Z) :
  in_band k extent x y = true →
  Z.to_nat ((y - 40) / 52) = k ∧ 40 ≤ y ∧ (y - 40) mod 52 < 36.
Proof.
  unfold in_band. rewrite !andb_true_iff, !Z.leb_le, !Z.ltb_lt.
  intros [[[H1 H2] _] _]. Z.div_mod_to_equations. lia.
Qed.

Lemma bar_at_spec (extents : list Z) (x y : Z) :
  bar_at extents x y = true
  ↔ ∃ (j : nat) extent, extents !! j = Some extent ∧ in_band j extent x y = true.
Proof.
  unfold bar_at. split.
  - destruct (extents !! Z.to_nat ((y - 40) / 52)) as [extent|] eqn:E; [|discriminate].
    intros H. exists (Z.to_nat ((y - 40) / 52)), extent. split; [exact E|].
    unfold in_band. rewrite !andb_true_iff, !Z.leb_le, !Z.ltb_lt in *.
    destruct H as [[[H1 H2] H3] H4]. repeat split; try assumption;
      Z.div_mod_to_equations; lia.
  - intros (j & extent & Hj & H). destruct (in_band_rank _ _ _ _ H) as (-> & H1 & H2).
    rewrite Hj. unfold in_band in H.
    rewrite !andb_true_iff, !Z.leb_le, !Z.ltb_lt in *. tauto.
Qed.

Lemma bars_from_0 (extents : list Z) (x y : Z) :
  bars_from 0 extents x y = bar_at extents x y.
Proof.
  apply eq_true_iff_eq. rewrite bars_from_spec, bar_at_spec. reflexivity.
Qed.

Lemma chart_pixel_color (extents : list Z) (x y : Z) : is_color (chart_pixel extents x y).
Proof.
  unfold chart_pixel. destruct (bar_at extents x y); [apply bar_color_color|].
  destruct (axis_at (length extents) x y); [apply axis_color_color | apply background_color].
Qed.

Section ChartTheorems.

Variable F : Type.
Variable bar_extent : list F → F → result Z.
Variable compress : list byte → Z → list byte.

Lemma chart_rows_Ok (rows : list F) (extents : list Z) :
  rows ≠ [] →
  Forall2 (λ row extent, bar_extent rows row = Ok extent) rows extents →
  chart_rows F bar_extent rows = Ok (chart_height (length rows), chart_image extents).
Proof.
  intros Hne Hext. unfold chart_rows.
  destruct rows as [|r rows']; [congruence|].
  remember (r :: rows') as rows eqn:Erows. clear Erows Hne.
  pose proof (Forall2_length _ _ _ Hext) as Hlen.
  replace (chart_top + (Z.of_nat (length rows) * (bar_h + bar_gap) - bar_gap) + chart_bottom)
    with (chart_height (length rows))
    by (unfold chart_height, chart_top, chart_bottom, bar_h, bar_gap; lia).
  replace (Z.to_nat chart_width) with 1200%nat by reflexivity.
  rewrite blank_canvas, (draw_axis_render 1200 ltac:(lia)), bind_Ok.
  rewrite (draw_bars_render F bar_extent 1200 ltac:(lia) rows (length rows) rows extents
             Hext 0); [|lia|].
  2:{ intros y x. destruct (axis_at _ _ _); reflexivity. }
  rewrite bind_Ok, bytes_of_render.
  2:{ intros y x. destruct (bars_from _ _ _ _); [apply bar_color_color|].
      destruct (axis_at _ _ _); [apply axis_color_color | apply background_color]. }
  rewrite bind_Ok. f_equal. f_equal. unfold chart_image. rewrite <- Hlen.
  apply render_ext. intros y x _ _. unfold chart_pixel.
  rewrite bars_from_0, <- Hlen. reflexivity.
Qed.

End ChartTheorems.

Section ChartResults.

Variable F : Type.
Variable bar_extent : list F → F → result Z.
Variable compress : list byte → Z → list byte.
Variable FS : Type.
Variable io : file_ops FS.

(** X11. For rows that are not empty and whose bar extents can all be
    computed, [draw_bar_chart] encodes this picture of 1200 by [52n+54]
    pixels, [n] the number of rows: the pixels from column 200 up to the end
    of the bar, at most column 1159, in the 36 scanlines of the band of each
    row have the bar colour, the bar being [max(1, extent)] pixels long; the
    pixels of column 199 in the scanlines 30 to [52n+24] have the axis
    colour; all other pixels have the background colour. *)
Theorem draw_bar_chart_picture (rows : list F) (extents : list Z) (path : string)
    (fs : FS) :
  rows ≠ [] →
  Forall2 (λ row extent, bar_extent rows row = Ok extent) rows extents →
  draw_bar_chart F bar_extent compress io rows path fs
  = make_png compress io 1200 (52 * Z.of_nat (length rows) + 54) (chart_image extents)
             path fs.
Proof.
  intros Hne Hext. unfold draw_bar_chart.
  rewrite (chart_rows_Ok F bar_extent rows extents Hne Hext). reflexivity.
Qed.

(** X12. The buffer [draw_bar_chart] hands to the encoder has the geometry
    the encoder expects, whatever the ratings: the width 1200 and the height
    [52n+54] are at least 1, there are as many scanlines as the height says,
    and every scanline has [1200*3] bytes. *)
Theorem chart_geometry (rows : list F) (extents : list Z) :
  rows ≠ [] →
  Forall2 (λ row extent, bar_extent rows row = Ok extent) rows extents →
  ∃ height rgb_rows,
    chart_rows F bar_extent rows = Ok (height, rgb_rows)
    ∧ height = 52 * Z.of_nat (length rows) + 54
    ∧ 1 ≤ chart_width ∧ 1 ≤ height
    ∧ Z.of_nat (length rgb_rows) = height
    ∧ Forall (λ row, Z.of_nat (length row) = chart_width * 3) rgb_rows.
Proof.
  intros Hne Hext. exists (chart_height (length rows)), (chart_image extents).
  split; [apply (chart_rows_Ok F bar_extent rows extents Hne Hext)|].
  pose proof (Forall2_length _ _ _ Hext) as Hlen.
  split; [reflexivity|]. split; [unfold chart_width; lia|]. unfold chart_height.
  split; [lia|]. split.
  - unfold chart_image. rewrite length_render, <- Hlen. unfold chart_height. lia.
  - unfold chart_image, render. apply List.Forall_forall. intros row Hrow.
    apply in_map_iff in Hrow as (y & <- & _). unfold render_row.
    rewrite (length_flat_map_const _ 3).
    + rewrite length_seq. reflexivity.
    + intros x. rewrite length_map. apply color_length, chart_pixel_color.
Qed.

Lemma draw_bar_Raise (rows : list F) (canvas : list (list Z)) (i : Z) (row : F)
    (e : exn) :
  bar_extent rows row = Raise e → draw_bar F bar_extent rows canvas (i, row) = Raise e.
Proof. intros H. unfold draw_bar. rewrite H. reflexivity. Qed.

Lemma Forall_Ok_Forall2 {A B : Type} (f : A → result B) (l : list A) :
  Forall (λ a, ∃ b, f a = Ok b) l → ∃ bs, Forall2 (λ a b, f a = Ok b) l bs.
Proof.
  induction 1 as [|a l [b Hb] _ [bs IH]]; [exists []; constructor|].
  exists (b :: bs). constructor; assumption.
Qed.

(** X13. [draw_bar_chart] writes nothing when it raises before the encoder
    is called: on no rows at all it raises [ValueError], and when the extent
    of a bar cannot be computed it raises the exception of the first such
    row; in both cases the file system is left as it was. *)
Theorem draw_bar_chart_raises (path : string) (fs : FS) :
  draw_bar_chart F bar_extent compress io [] path fs = (fs, Raise ValueError)
  ∧ ∀ (rows pre post : list F) (row : F) (e : exn),
      rows = pre ++ row :: post →
      Forall (λ r, ∃ extent, bar_extent rows r = Ok extent) pre →
      bar_extent rows row = Raise e →
      draw_bar_chart F bar_extent compress io rows path fs = (fs, Raise e).
Proof.
  split; [reflexivity|].
  intros rows pre post row e Erows Hpre He.
  destruct (Forall_Ok_Forall2 _ _ Hpre) as [extents Hext].
  unfold draw_bar_chart.
  assert (chart_rows F bar_extent rows = Raise e) as ->; [|reflexivity].
  unfold chart_rows. destruct rows as [|r rows'].
  { destruct pre; discriminate Erows. }
  remember (r :: rows') as rows eqn:E0. clear E0.
  replace (chart_top + (Z.of_nat (length rows) * (bar_h + bar_gap) - bar_gap) + chart_bottom)
    with (chart_height (length rows))
    by (unfold chart_height, chart_top, chart_bottom, bar_h, bar_gap; lia).
  replace (Z.to_nat chart_width) with 1200%nat by reflexivity.
  rewrite blank_canvas, (draw_axis_render 1200 ltac:(lia)), bind_Ok.
  assert (zip (seqZ 0 (Z.of_nat (length rows))) rows
          = zip (seqZ (Z.of_nat 0) (Z.of_nat (length pre))) pre
            ++ (Z.of_nat (length pre), row)
               :: zip (seqZ (Z.of_nat (S (length pre))) (Z.of_nat (length post))) post)
    as ->.
  { clear Hext He Hpre. subst rows. rewrite length_app. cbn [length].
    replace (Z.of_nat (length pre + S (length post)))
      with (Z.of_nat (length pre) + Z.of_nat (S (length post))) by lia.
    rewrite seqZ_app by lia.
    rewrite zip_with_app by (rewrite length_seqZ; lia).
    f_equal. rewrite seqZ_cons by lia. cbn [zip_with]. f_equal.
    f_equal. f_equal; lia. }
  rewrite for_each_app.
  rewrite (draw_bars_render F bar_extent 1200 ltac:(lia) rows (length rows) pre extents
             Hext 0).
  - rewrite bind_Ok. cbn [for_each]. rewrite (draw_bar_Raise rows _ _ row e He).
    reflexivity.
  - rewrite Erows, length_app. lia.
  - intros y x. destruct (axis_at _ _ _); reflexivity.
Qed.

End ChartResults.

Lemma draw_bar_chart_picture_witness :
  draw_bar_chart Z (λ _ rating, Ok rating) deflate_stored plain_fs [300; 5000; -3]
                 "outputs/rank_order.png" ∅
  = make_png deflate_stored plain_fs 1200 (52 * Z.of_nat (length [300; 5000; -3]) + 54)
             (chart_image [300; 5000; -3]) "outputs/rank_order.png" ∅.
Proof.
  apply draw_bar_chart_picture; [discriminate | repeat constructor].
Defined.

Lemma chart_geometry_witness :
  ∃ height rgb_rows,
    chart_rows Z (λ _ rating, Ok rating) [300; 5000; -3] = Ok (height, rgb_rows)
    ∧ height = 52 * Z.of_nat (length [300; 5000; -3]) + 54
    ∧ 1 ≤ chart_width ∧ 1 ≤ height
    ∧ Z.of_nat (length rgb_rows) = height
    ∧ Forall (λ row, Z.of_nat (length row) = chart_width * 3) rgb_rows.
Proof.
  apply (chart_geometry Z (λ _ rating, Ok rating) [300; 5000; -3] [300; 5000; -3]);
    [discriminate | repeat constructor].
Defined.

Lemma draw_bar_chart_raises_witness :
  draw_bar_chart Z (λ _ rating, if rating <? 0 then Raise ValueError else Ok rating)
                 deflate_stored plain_fs [300; -3; 7] "outputs/rank_order.png" ∅
  = (∅, Raise ValueError).
Proof.
  apply (proj2 (draw_bar_chart_raises Z
                  (λ _ rating, if rating <? 0 then Raise ValueError else Ok rating)
                  deflate_stored _ plain_fs "outputs/rank_order.png" ∅)
           [300; -3; 7] [300] [7] (-3) ValueError).
  - reflexivity.
  - repeat constructor. exists 300. reflexivity.
  - reflexivity.
Defined.
